(** * PD_AI wire protocol (MCP wire format): a shallow embedding

    The development follows [particle_core/src/wire/PD_AI_wire.h] and the
    message assembly of [particle_core/src/wire/pd_ai_wire_test.c].

    C integers are mathematical integers ([Z]) together with the explicit
    reduction the C conversion to an unsigned type of a given width performs.
    Object representations are lists of bytes; the byte order of the machine
    is a parameter, since the header only says that the structures are
    copied as they are stored. *)

From Stdlib Require Import ZArith List Lia Bool.
From coqutil Require Import Byte Word.LittleEndianList.
Import ListNotations.
Local Open Scope Z_scope.

(** ** Fixed-width unsigned integers *)

(** Conversion of an integer value to an unsigned type of [w] bits. *)
Definition to_unsigned (w x : Z) : Z := x mod 2 ^ w.

Definition to_uint8 : Z -> Z := to_unsigned 8.
Definition to_uint32 : Z -> Z := to_unsigned 32.

Definition UINT8_MAX : Z := 2 ^ 8 - 1.
Definition UINT32_MAX : Z := 2 ^ 32 - 1.

Definition is_uint8 (x : Z) : Prop := 0 <= x <= UINT8_MAX.
Definition is_uint32 (x : Z) : Prop := 0 <= x <= UINT32_MAX.

(** ** Core structure definitions *)

(** Wire header: mt(1) + kc(1) + ann(1) + ver(1) + cap(4) + rid(4) + n(4). *)
Record wh16_t : Set := Build_wh16_t {
  mt  : Z;   (* uint8_t:  message type *)
  kc  : Z;   (* uint8_t:  key class *)
  ann : Z;   (* uint8_t:  annotation bits *)
  ver : Z;   (* uint8_t:  version *)
  cap : Z;   (* uint32_t: capabilities bitmap *)
  rid : Z;   (* uint32_t: record ID *)
  n   : Z    (* uint32_t: payload size in bytes *)
}.

(** Key-value pair. *)
Record kv32_t : Set := Build_kv32_t {
  k : Z;     (* uint32_t: key *)
  v : Z      (* uint32_t: value *)
}.

(** Budget structure. *)
Record bud_t : Set := Build_bud_t {
  mode         : Z;  (* uint32_t: budget mode *)
  cap_credits  : Z;  (* uint32_t: capacity/maximum credits *)
  used_credits : Z   (* uint32_t: used credits *)
}.

(** The structures are packed: the size of each is the sum of the sizes of
    its members, in bytes. *)
Definition sizeof_uint8_t : Z := 1.
Definition sizeof_uint32_t : Z := 4.

Definition sizeof_wh16_t : Z :=
  sizeof_uint8_t + sizeof_uint8_t + sizeof_uint8_t + sizeof_uint8_t
  + sizeof_uint32_t + sizeof_uint32_t + sizeof_uint32_t.
Definition sizeof_kv32_t : Z := sizeof_uint32_t + sizeof_uint32_t.
Definition sizeof_bud_t : Z := sizeof_uint32_t + sizeof_uint32_t + sizeof_uint32_t.

(** ** Message type constants *)

Definition M_PING     : Z := 0x00.
Definition M_PONG     : Z := 0x01.
Definition M_UPSERT   : Z := 0x02.
Definition M_QUERY    : Z := 0x03.
Definition M_DELETE   : Z := 0x04.
Definition M_SNAPSHOT : Z := 0x05.
Definition M_RESTORE  : Z := 0x06.
Definition M_SYNC     : Z := 0x07.

(** ** Key class constants *)

Definition K_MCP      : Z := 0x10.
Definition K_AUTH     : Z := 0x20.
Definition K_CONFIG   : Z := 0x30.
Definition K_STATE    : Z := 0x40.
Definition K_SNAPSHOT : Z := 0x50.
Definition K_METADATA : Z := 0x60.

(** ** Annotation bits *)

Definition T_R        : Z := 0x01.
Definition T_W        : Z := 0x02.
Definition T_D        : Z := 0x04.
Definition T_X        : Z := 0x08.
Definition T_SYNC     : Z := 0x10.
Definition T_COMPRESS : Z := 0x20.
Definition T_ENCRYPT  : Z := 0x40.
Definition T_ARCHIVE  : Z := 0x80.

Definition ANN_MCP  : Z := Z.lor (Z.lor T_R T_W) T_D.
Definition ANN_RO   : Z := T_R.
Definition ANN_RW   : Z := Z.lor T_R T_W.
Definition ANN_FULL : Z := Z.lor (Z.lor (Z.lor T_R T_W) T_D) T_X.

(** ** Capability flags *)

Definition P_TOOLS    : Z := 0x10000000.
Definition P_APPS     : Z := 0x20000000.
Definition P_FILES    : Z := 0x40000000.
Definition P_NETWORK  : Z := 0x80000000.
Definition P_DATABASE : Z := 0x01000000.
Definition P_COMPUTE  : Z := 0x02000000.
Definition P_MEMORY   : Z := 0x04000000.
Definition P_ADMIN    : Z := 0x08000000.

Definition CAP_STANDARD : Z := Z.lor P_TOOLS P_APPS.
Definition CAP_EXTENDED : Z := Z.lor (Z.lor P_TOOLS P_APPS) P_FILES.
Definition CAP_FULL     : Z := 0xFFFFFFFF.

(** The eight capability flags, in the order of their declaration. *)
Definition capability_flags : list Z :=
  [P_TOOLS; P_APPS; P_FILES; P_NETWORK; P_DATABASE; P_COMPUTE; P_MEMORY; P_ADMIN].

(** ** Record ID ranges *)

Definition RID_SYSTEM_MIN   : Z := 0x00000001.
Definition RID_SYSTEM_MAX   : Z := 0x000FFFFF.
Definition RID_USER_MIN     : Z := 0x00100000.
Definition RID_USER_MAX     : Z := 0x0FFFFFFF.
Definition RID_SNAPSHOT_MIN : Z := 0x10000000.
Definition RID_SNAPSHOT_MAX : Z := 0x1FFFFFFF.
Definition RID_TEMP_MIN     : Z := 0x20000000.
Definition RID_TEMP_MAX     : Z := 0x2FFFFFFF.

(** ** Convenience macros *)

(** [WH]: a compound literal of type [wh16_t]; each initializer is converted
    to the type of the member it initializes, and [ver] is the constant 1. *)
Definition WH (mt kc ann cap rid n : Z) : wh16_t :=
  Build_wh16_t (to_uint8 mt) (to_uint8 kc) (to_uint8 ann) (to_uint8 1)
               (to_uint32 cap) (to_uint32 rid) (to_uint32 n).

Definition KV (k v : Z) : kv32_t :=
  Build_kv32_t (to_uint32 k) (to_uint32 v).

Definition BUD (mode cap used : Z) : bud_t :=
  Build_bud_t (to_uint32 mode) (to_uint32 cap) (to_uint32 used).

(** [BYTES_KV] and [MSG_SIZE] multiply and add in [size_t], the type of
    [sizeof]; its width [size_bits] is fixed by the platform and is a
    parameter here.  The argument is the value of the operand once it is
    converted to [size_t]: the operand has an integer type that is not
    wider than [size_t], as in the test. With an operand of a wider type C
    computes in that type, and gives the same result as here whenever the
    exact product or sum fits [size_t]. *)
Definition to_size_t (size_bits x : Z) : Z := to_unsigned size_bits x.

Definition BYTES_KV (size_bits n : Z) : Z :=
  to_size_t size_bits (to_size_t size_bits n * sizeof_kv32_t).

Definition MSG_SIZE (size_bits payload_bytes : Z) : Z :=
  to_size_t size_bits (sizeof_wh16_t + to_size_t size_bits payload_bytes).

(** ** Validation macros *)

Definition RID_IS_VALID (rid : Z) : bool :=
  (RID_SYSTEM_MIN <=? rid) && (rid <=? RID_TEMP_MAX).

Definition RID_IS_SYSTEM (rid : Z) : bool :=
  (RID_SYSTEM_MIN <=? rid) && (rid <=? RID_SYSTEM_MAX).

Definition RID_IS_USER (rid : Z) : bool :=
  (RID_USER_MIN <=? rid) && (rid <=? RID_USER_MAX).

Definition HAS_READ (ann : Z) : bool := negb (Z.land ann T_R =? 0).
Definition HAS_WRITE (ann : Z) : bool := negb (Z.land ann T_W =? 0).
Definition HAS_DELETE (ann : Z) : bool := negb (Z.land ann T_D =? 0).

(** ** Budget arithmetic *)

(** [budget.cap_credits - budget.used_credits], stored in a [uint32_t]
    ([test_bud]): the subtraction of two [uint32_t] members, reduced to 32
    bits. *)
Definition remaining (budget : bud_t) : Z :=
  to_uint32 (cap_credits budget - used_credits budget).

(** ** Object representations *)

(** Byte order of the machine on which the structures are stored. *)
Inductive byte_order : Set := LittleEndian | BigEndian.

(** The [size] bytes that hold the unsigned integer [x], lowest address
    first. *)
Definition store_uint (bo : byte_order) (size : nat) (x : Z) : list byte :=
  match bo with
  | LittleEndian => le_split size x
  | BigEndian => rev (le_split size x)
  end.

(** The unsigned integer held by the bytes [bs], lowest address first. *)
Definition load_uint (bo : byte_order) (bs : list byte) : Z :=
  match bo with
  | LittleEndian => le_combine bs
  | BigEndian => le_combine (rev bs)
  end.

(** The members of a packed structure follow one another without padding. *)
Definition bytes_of_wh16 (bo : byte_order) (h : wh16_t) : list byte :=
  store_uint bo 1 (mt h) ++ store_uint bo 1 (kc h) ++ store_uint bo 1 (ann h)
  ++ store_uint bo 1 (ver h) ++ store_uint bo 4 (cap h)
  ++ store_uint bo 4 (rid h) ++ store_uint bo 4 (n h).

Definition bytes_of_kv32 (bo : byte_order) (p : kv32_t) : list byte :=
  store_uint bo 4 (k p) ++ store_uint bo 4 (v p).

Definition bytes_of_bud (bo : byte_order) (b : bud_t) : list byte :=
  store_uint bo 4 (mode b) ++ store_uint bo 4 (cap_credits b)
  ++ store_uint bo 4 (used_credits b).

(** An array of pairs is the concatenation of its elements. *)
Definition bytes_of_kv32_array (bo : byte_order) (kvs : list kv32_t) : list byte :=
  flat_map (bytes_of_kv32 bo) kvs.

(** ** Byte buffers *)

(** Accesses outside the buffer are undefined in C; here they are [None]. *)
Definition bind {A B : Type} (m : option A) (f : A -> option B) : option B :=
  match m with
  | Some a => f a
  | None => None
  end.

Notation "x <- m ;; f" := (bind m (fun x => f))
  (at level 61, m at next level, right associativity).

(** The [len] bytes of [buf] from offset [off]. *)
Definition read_bytes (buf : list byte) (off len : nat) : option (list byte) :=
  if (off + len <=? length buf)%nat
  then Some (firstn len (skipn off buf))
  else None.

(** [memcpy(dst + off, src, len)]: the buffer [dst] afterwards. *)
Definition memcpy (dst : list byte) (off : nat) (src : list byte) (len : nat)
  : option (list byte) :=
  if ((off + len <=? length dst) && (len <=? length src))%nat
  then Some (firstn off dst ++ firstn len src ++ skipn (off + len) dst)
  else None.

(** An unsigned integer of [size] bytes at offset [off]. *)
Definition uint_at (bo : byte_order) (buf : list byte) (off size : nat) : option Z :=
  bs <- read_bytes buf off size ;; Some (load_uint bo bs).

(** Member accesses through a [wh16_t *] that points to offset [off]. *)
Definition wh16_at (bo : byte_order) (buf : list byte) (off : nat) : option wh16_t :=
  f_mt  <- uint_at bo buf off 1 ;;
  f_kc  <- uint_at bo buf (off + 1) 1 ;;
  f_ann <- uint_at bo buf (off + 2) 1 ;;
  f_ver <- uint_at bo buf (off + 3) 1 ;;
  f_cap <- uint_at bo buf (off + 4) 4 ;;
  f_rid <- uint_at bo buf (off + 8) 4 ;;
  f_n   <- uint_at bo buf (off + 12) 4 ;;
  Some (Build_wh16_t f_mt f_kc f_ann f_ver f_cap f_rid f_n).

(** Member accesses through a [kv32_t *] that points to offset [off]. *)
Definition kv32_at (bo : byte_order) (buf : list byte) (off : nat) : option kv32_t :=
  f_k <- uint_at bo buf off 4 ;;
  f_v <- uint_at bo buf (off + 4) 4 ;;
  Some (Build_kv32_t f_k f_v).

(** [base[i]] for [kv32_t *base] pointing to offset [off]. *)
Definition kv32_index (bo : byte_order) (buf : list byte) (off i : nat) : option kv32_t :=
  kv32_at bo buf (off + i * Z.to_nat sizeof_kv32_t).

(** The first [count] elements of the array of pairs at offset [off]. *)
Fixpoint kv32_array_at (bo : byte_order) (buf : list byte) (off count : nat)
  : option (list kv32_t) :=
  match count with
  | O => Some []
  | S c =>
      p <- kv32_at bo buf off ;;
      ps <- kv32_array_at bo buf (off + Z.to_nat sizeof_kv32_t) c ;;
      Some (p :: ps)
  end.

(** ** Message assembly ([test_full_message]) *)

(** The buffer after the two copies: the header at offset 0 and the pairs
    right after it.  [msg] is the buffer as allocated; its contents are
    indeterminate. *)
Definition assemble (bo : byte_order) (msg : list byte)
  (header : wh16_t) (kvs : list kv32_t) (payload_size : Z) : option (list byte) :=
  msg1 <- memcpy msg 0 (bytes_of_wh16 bo header) (Z.to_nat sizeof_wh16_t) ;;
  memcpy msg1 (Z.to_nat sizeof_wh16_t) (bytes_of_kv32_array bo kvs)
         (Z.to_nat payload_size).

(** The header read back from the start of the buffer. *)
Definition read_header (bo : byte_order) (msg : list byte) : option wh16_t :=
  wh16_at bo msg 0.

(** The pairs read back from the payload, right after the header. *)
Definition read_kvs (bo : byte_order) (msg : list byte) (i : nat) : option kv32_t :=
  kv32_index bo msg (Z.to_nat sizeof_wh16_t) i.

(** ** Record ID ranges as intervals *)

(** Membership in the closed interval from [lo] to [hi], the shape of every
    range macro of the header. *)
Definition rid_between (lo hi rid : Z) : bool := (lo <=? rid) && (rid <=? hi).

(** The header has no macro for the snapshot and temporary ranges; they are
    the intervals of their two bounds. *)
Definition rid_in_snapshot_range : Z -> bool := rid_between RID_SNAPSHOT_MIN RID_SNAPSHOT_MAX.
Definition rid_in_temp_range : Z -> bool := rid_between RID_TEMP_MIN RID_TEMP_MAX.

(** The four ranges, in the order of their declaration. *)
Definition rid_ranges : list (Z -> bool) :=
  [RID_IS_SYSTEM; RID_IS_USER; rid_in_snapshot_range; rid_in_temp_range].

(** ** Unions of capability flags *)

Definition flags_union (flags : list Z) : Z := fold_right Z.lor 0 flags.

(** A value is a union of capability flags when it is the bitwise or of some
    of the eight flags. *)
Definition union_of_capability_flags (c : Z) : Prop :=
  exists flags : list Z, incl flags capability_flags /\ c = flags_union flags.

(** The 24 bits below the lowest capability flag. *)
Definition below_capability_flags : Z := 0x00FFFFFF.

(** ** Well-formed values: every member within the range of its type *)

Definition wf_wh16 (h : wh16_t) : Prop :=
  is_uint8 (mt h) /\ is_uint8 (kc h) /\ is_uint8 (ann h) /\ is_uint8 (ver h)
  /\ is_uint32 (cap h) /\ is_uint32 (rid h) /\ is_uint32 (n h).

Definition wf_kv32 (p : kv32_t) : Prop := is_uint32 (k p) /\ is_uint32 (v p).

Definition wf_bud (b : bud_t) : Prop :=
  is_uint32 (mode b) /\ is_uint32 (cap_credits b) /\ is_uint32 (used_credits b).

(** ** Flags held by a bitmask *)

(** The eight annotation bits, in the order of their declaration. *)
Definition annotation_flags : list Z :=
  [T_R; T_W; T_D; T_X; T_SYNC; T_COMPRESS; T_ENCRYPT; T_ARCHIVE].

(** [(mask & flag) != 0], the test of [HAS_READ] and of [test_capabilities],
    for any flag. *)
Definition has_flag (mask flag : Z) : bool := negb (Z.land mask flag =? 0).

(** A flag is a single bit when it is a power of two. *)
Definition single_bit (f : Z) : Prop := exists i : Z, 0 <= i /\ f = 2 ^ i.

(** The flags of [flags] that [mask] holds. *)
Definition flags_held (flags : list Z) (mask : Z) : list Z :=
  filter (has_flag mask) flags.

(** ** Reading with the other byte order *)

(** The value a machine of the other byte order loads from the four bytes
    that hold [x]. *)
Definition byte_swapped32 (x : Z) : Z :=
  load_uint BigEndian (store_uint LittleEndian 4 x).

Definition same_byte_order (bo1 bo2 : byte_order) : bool :=
  match bo1, bo2 with
  | LittleEndian, LittleEndian | BigEndian, BigEndian => true
  | _, _ => false
  end.

(** ** The test suite ([pd_ai_wire_test.c]) *)

(** The two counters of the test file, and the number of blocks obtained
    from [malloc] and not yet given to [free]. Output to the terminal is
    left out: it decides neither a counter nor a returned value. *)
Record test_state : Set := Build_test_state {
  tests_run    : Z;
  tests_passed : Z;
  live_blocks  : Z
}.

(** The counters as the program starts. *)
Definition initial_state : test_state := Build_test_state 0 0 0.

Definition TEST_START (s : test_state) : test_state :=
  Build_test_state (tests_run s + 1) (tests_passed s) (live_blocks s).

Definition TEST_PASS (s : test_state) : test_state :=
  Build_test_state (tests_run s) (tests_passed s + 1) (live_blocks s).

Definition block_allocated (s : test_state) : test_state :=
  Build_test_state (tests_run s) (tests_passed s) (live_blocks s + 1).

Definition block_freed (s : test_state) : test_state :=
  Build_test_state (tests_run s) (tests_passed s) (live_blocks s - 1).

(** [ASSERT_EQ(a, b, msg)]: the test returns 0 when [a != b]. Every
    comparison of the suite is between values that are not negative, so the
    comparison of C is the one of the integers. *)
Definition ASSERT_EQ (a b : Z) : bool := a =? b.

(** A test that allocates nothing: [TEST_START], the assertions in order,
    the first that fails returning 0, then [TEST_PASS] and 1. *)
Definition run_assertions (assertions : list bool) (s : test_state)
  : test_state * Z :=
  let s1 := TEST_START s in
  if forallb (fun a => a) assertions then (TEST_PASS s1, 1) else (s1, 0).

Definition test_wh16 (s : test_state) : test_state * Z :=
  let header := WH M_UPSERT K_MCP ANN_MCP (Z.lor P_TOOLS P_APPS) 1 100 in
  run_assertions
    [ ASSERT_EQ sizeof_wh16_t 16;
      ASSERT_EQ (mt header) M_UPSERT;
      ASSERT_EQ (kc header) K_MCP;
      ASSERT_EQ (ann header) ANN_MCP;
      ASSERT_EQ (ver header) 1;
      ASSERT_EQ (cap header) (Z.lor P_TOOLS P_APPS);
      ASSERT_EQ (rid header) 1;
      ASSERT_EQ (n header) 100 ] s.

Definition test_kv32 (size_bits : Z) (s : test_state) : test_state * Z :=
  let kv1 := KV 0x1001 0x2002 in
  let kv2 := KV 0x3003 0x4004 in
  run_assertions
    [ ASSERT_EQ sizeof_kv32_t 8;
      ASSERT_EQ (k kv1) 0x1001;
      ASSERT_EQ (v kv1) 0x2002;
      ASSERT_EQ (k kv2) 0x3003;
      ASSERT_EQ (v kv2) 0x4004;
      ASSERT_EQ (BYTES_KV size_bits 3) 24 ] s.

Definition test_bud (s : test_state) : test_state * Z :=
  let budget := BUD 1 1000000 50000 in
  run_assertions
    [ ASSERT_EQ sizeof_bud_t 12;
      ASSERT_EQ (mode budget) 1;
      ASSERT_EQ (cap_credits budget) 1000000;
      ASSERT_EQ (used_credits budget) 50000;
      ASSERT_EQ (remaining budget) 950000 ] s.

(** [ASSERT_EQ] or [ASSERT_TRUE] in a test that may go on to an undefined
    access: 0 is returned when the condition fails. *)
Definition assert_or_return (cond : bool) (s : test_state)
  (rest : option (test_state * Z)) : option (test_state * Z) :=
  if cond then rest else Some (s, 0).

(** [malloc size] is [None] for a null pointer, or the block obtained, with
    its indeterminate contents. The result is [None] when the test makes an
    access outside the block. *)
Definition test_full_message (bo : byte_order) (size_bits : Z)
  (malloc : Z -> option (list byte)) (s : test_state)
  : option (test_state * Z) :=
  let s := TEST_START s in
  let kvs := [KV 0x1001 0x2002; KV 0x3003 0x4004; KV 0x5005 0x6006] in
  let payload_size := to_uint32 (BYTES_KV size_bits 3) in
  let header := WH M_UPSERT K_MCP ANN_MCP CAP_STANDARD RID_USER_MIN payload_size in
  let total_size := to_uint32 (MSG_SIZE size_bits payload_size) in
  assert_or_return (ASSERT_EQ total_size (16 + 24)) s (
  match malloc total_size with
  | None => Some (s, 0)
  | Some buf =>
      let s := block_allocated s in
      msg <- assemble bo buf header kvs payload_size ;;
      read_mt <- uint_at bo msg 0 1 ;;
      assert_or_return (ASSERT_EQ read_mt M_UPSERT) s (
      read_n <- uint_at bo msg 12 4 ;;
      assert_or_return (ASSERT_EQ read_n payload_size) s (
      let pairs := Z.to_nat sizeof_wh16_t in
      k0 <- uint_at bo msg (pairs + 0 * 8) 4 ;;
      assert_or_return (ASSERT_EQ k0 0x1001) s (
      v1 <- uint_at bo msg (pairs + 1 * 8 + 4) 4 ;;
      assert_or_return (ASSERT_EQ v1 0x4004) s (
      k2 <- uint_at bo msg (pairs + 2 * 8) 4 ;;
      assert_or_return (ASSERT_EQ k2 0x5005) s (
      Some (TEST_PASS (block_freed s), 1))))))
  end).

Definition test_annotation_bits (s : test_state) : test_state * Z :=
  let ann_read := to_uint8 T_R in
  let ann_rw := to_uint8 ANN_RW in
  let ann_mcp := to_uint8 ANN_MCP in
  let ann_full := to_uint8 ANN_FULL in
  run_assertions
    [ HAS_READ ann_read; negb (HAS_WRITE ann_read);
      HAS_READ ann_rw; HAS_WRITE ann_rw; negb (HAS_DELETE ann_rw);
      HAS_READ ann_mcp; HAS_WRITE ann_mcp; HAS_DELETE ann_mcp;
      HAS_READ ann_full; HAS_WRITE ann_full; HAS_DELETE ann_full;
      ASSERT_EQ (Z.land ann_full T_X) T_X ] s.

Definition test_id_ranges (s : test_state) : test_state * Z :=
  let rid_sys := to_uint32 RID_SYSTEM_MIN in
  let rid_user := to_uint32 RID_USER_MIN in
  let rid_snapshot := to_uint32 RID_SNAPSHOT_MIN in
  let rid_temp := to_uint32 RID_TEMP_MIN in
  let rid_invalid := to_uint32 (RID_TEMP_MAX + 1) in
  run_assertions
    [ RID_IS_VALID rid_sys; RID_IS_SYSTEM rid_sys; negb (RID_IS_USER rid_sys);
      RID_IS_VALID rid_user; RID_IS_USER rid_user; negb (RID_IS_SYSTEM rid_user);
      RID_IS_VALID rid_snapshot;
      RID_IS_VALID rid_temp;
      negb (RID_IS_VALID rid_invalid) ] s.

Definition test_message_types (s : test_state) : test_state * Z :=
  run_assertions
    [ ASSERT_EQ M_PING 0x00; ASSERT_EQ M_PONG 0x01; ASSERT_EQ M_UPSERT 0x02;
      ASSERT_EQ M_QUERY 0x03; ASSERT_EQ M_DELETE 0x04; ASSERT_EQ M_SNAPSHOT 0x05;
      ASSERT_EQ M_RESTORE 0x06; ASSERT_EQ M_SYNC 0x07 ] s.

Definition test_capabilities (s : test_state) : test_state * Z :=
  let cap_tools := to_uint32 P_TOOLS in
  let cap_apps := to_uint32 P_APPS in
  let cap_standard := to_uint32 CAP_STANDARD in
  let cap_extended := to_uint32 CAP_EXTENDED in
  run_assertions
    [ ASSERT_EQ cap_tools 0x10000000; ASSERT_EQ cap_apps 0x20000000;
      has_flag cap_standard P_TOOLS; has_flag cap_standard P_APPS;
      has_flag cap_extended P_TOOLS; has_flag cap_extended P_APPS;
      has_flag cap_extended P_FILES ] s.

(** [main]: the eight tests in order, their returned values unused; 0 is
    returned when as many tests passed as were run, and 1 otherwise. *)
Definition main (bo : byte_order) (size_bits : Z)
  (malloc : Z -> option (list byte)) : option (test_state * Z) :=
  let s := initial_state in
  let s := fst (test_wh16 s) in
  let s := fst (test_kv32 size_bits s) in
  let s := fst (test_bud s) in
  r <- test_full_message bo size_bits malloc s ;;
  let s := fst r in
  let s := fst (test_annotation_bits s) in
  let s := fst (test_id_ranges s) in
  let s := fst (test_message_types s) in
  let s := fst (test_capabilities s) in
  Some (s, if tests_passed s =? tests_run s then 0 else 1).

(** * Properties *)

(** ** Integer conversions *)

Lemma to_unsigned_range (w x : Z) : 0 <= w -> 0 <= to_unsigned w x < 2 ^ w.
Proof.
  intros Hw. unfold to_unsigned. apply Z.mod_pos_bound.
  apply Z.pow_pos_nonneg; lia.
Qed.

Lemma to_unsigned_small (w x : Z) : 0 <= x < 2 ^ w -> to_unsigned w x = x.
Proof. intros Hx. unfold to_unsigned. now apply Z.mod_small. Qed.

Lemma to_unsigned_idem (w x : Z) :
  0 <= w -> to_unsigned w (to_unsigned w x) = to_unsigned w x.
Proof. intros Hw. apply to_unsigned_small. now apply to_unsigned_range. Qed.

Lemma to_unsigned_testbit (w x i : Z) :
  0 <= w -> 0 <= i ->
  Z.testbit (to_unsigned w x) i = Z.testbit x i && (i <? w).
Proof.
  intros Hw Hi. unfold to_unsigned.
  destruct (Z.ltb_spec i w) as [Hlt | Hge].
  - rewrite Z.mod_pow2_bits_low by lia. now rewrite andb_true_r.
  - rewrite Z.mod_pow2_bits_high by lia. now rewrite andb_false_r.
Qed.

Lemma to_uint8_range (x : Z) : is_uint8 (to_uint8 x).
Proof.
  unfold is_uint8, UINT8_MAX, to_uint8.
  pose proof (to_unsigned_range 8 x). lia.
Qed.

Lemma to_uint32_range (x : Z) : is_uint32 (to_uint32 x).
Proof.
  unfold is_uint32, UINT32_MAX, to_uint32.
  pose proof (to_unsigned_range 32 x). lia.
Qed.

Lemma to_uint8_id (x : Z) : is_uint8 x -> to_uint8 x = x.
Proof.
  unfold is_uint8, UINT8_MAX, to_uint8. intros Hx.
  apply to_unsigned_small. lia.
Qed.

Lemma to_uint32_id (x : Z) : is_uint32 x -> to_uint32 x = x.
Proof.
  unfold is_uint32, UINT32_MAX, to_uint32. intros Hx.
  apply to_unsigned_small. lia.
Qed.

Create HintDb wire.
#[local] Hint Resolve to_uint8_range to_uint32_range : wire.

(** Splits the conjunctions of a goal, leaving range predicates folded. *)
Ltac split_members :=
  repeat match goal with |- _ /\ _ => split end.

Lemma WH_wf (m c a p r len : Z) : wf_wh16 (WH m c a p r len).
Proof. unfold wf_wh16, WH; simpl. split_members; auto with wire. Qed.

Lemma KV_wf (key val : Z) : wf_kv32 (KV key val).
Proof. unfold wf_kv32, KV; simpl. split_members; auto with wire. Qed.

Lemma BUD_wf (m c u : Z) : wf_bud (BUD m c u).
Proof. unfold wf_bud, BUD; simpl. split_members; auto with wire. Qed.

(** A well-formed pair is the one [KV] builds from its members. *)
Lemma KV_eta (p : kv32_t) : wf_kv32 p -> KV (k p) (v p) = p.
Proof.
  destruct p as [key val]. unfold wf_kv32, KV; simpl. intros [Hk Hv].
  now rewrite !to_uint32_id.
Qed.

(** ** Object representations *)

Section Representation.

(** The byte order of the machine, the same for every store and load. *)
Variable bo : byte_order.

Lemma length_store_uint (size : nat) (x : Z) :
  length (store_uint bo size x) = size.
Proof.
  destruct bo; simpl.
  - apply length_le_split.
  - rewrite length_rev. apply length_le_split.
Qed.

(** Loading what was stored gives the value back, reduced to the width of
    the object. *)
Lemma load_store_uint (size : nat) (x : Z) :
  load_uint bo (store_uint bo size x) = to_unsigned (Z.of_nat size * 8) x.
Proof.
  destruct bo; simpl.
  - apply le_combine_split.
  - rewrite rev_involutive. apply le_combine_split.
Qed.

Lemma length_bytes_of_wh16 (h : wh16_t) :
  length (bytes_of_wh16 bo h) = 16%nat.
Proof.
  unfold bytes_of_wh16.
  repeat rewrite length_app. repeat rewrite length_store_uint. reflexivity.
Qed.

Lemma length_bytes_of_kv32 (p : kv32_t) :
  length (bytes_of_kv32 bo p) = 8%nat.
Proof.
  unfold bytes_of_kv32.
  repeat rewrite length_app. repeat rewrite length_store_uint. reflexivity.
Qed.

Lemma length_bytes_of_bud (b : bud_t) :
  length (bytes_of_bud bo b) = 12%nat.
Proof.
  unfold bytes_of_bud.
  repeat rewrite length_app. repeat rewrite length_store_uint. reflexivity.
Qed.

Lemma length_bytes_of_kv32_array (kvs : list kv32_t) :
  length (bytes_of_kv32_array bo kvs) = (8 * length kvs)%nat.
Proof.
  induction kvs as [| p kvs IH]; simpl.
  - reflexivity.
  - rewrite length_app, length_bytes_of_kv32, IH. lia.
Qed.

(** ** Reads from a buffer *)

Lemma read_bytes_skip (a l : list byte) (off len : nat) :
  read_bytes (a ++ l) (length a + off) len = read_bytes l off len.
Proof.
  unfold read_bytes. rewrite length_app.
  rewrite skipn_app, skipn_all2 by lia.
  replace (length a + off - length a)%nat with off by lia. simpl.
  destruct (Nat.leb_spec (off + len) (length l));
    destruct (Nat.leb_spec (length a + off + len) (length a + length l));
    try lia; reflexivity.
Qed.

Lemma read_bytes_here (b l : list byte) :
  read_bytes (b ++ l) 0 (length b) = Some b.
Proof.
  unfold read_bytes. rewrite length_app. simpl.
  destruct (Nat.leb_spec (length b) (length b + length l)); try lia.
  rewrite firstn_app, firstn_all, Nat.sub_diag. simpl.
  now rewrite app_nil_r.
Qed.

Lemma uint_at_skip (a l : list byte) (off size : nat) :
  uint_at bo (a ++ l) (length a + off) size = uint_at bo l off size.
Proof. unfold uint_at. now rewrite read_bytes_skip. Qed.

Lemma uint_at_skip_0 (a l : list byte) (size : nat) :
  uint_at bo (a ++ l) (length a) size = uint_at bo l 0 size.
Proof. rewrite <- (Nat.add_0_r (length a)) at 1. apply uint_at_skip. Qed.

(** Skipping a stored member of [m] bytes in front of the one read. *)
Lemma uint_at_skip_member (m : nat) (x : Z) (l : list byte)
  (off size : nat) :
  uint_at bo (store_uint bo m x ++ l) (m + off) size = uint_at bo l off size.
Proof.
  rewrite <- (length_store_uint m x) at 2. apply uint_at_skip.
Qed.

(** Reading the member stored first. *)
Lemma uint_at_member (m : nat) (x : Z) (l : list byte) :
  uint_at bo (store_uint bo m x ++ l) 0 m
  = Some (to_unsigned (Z.of_nat m * 8) x).
Proof.
  unfold uint_at.
  rewrite <- (length_store_uint m x) at 2.
  rewrite read_bytes_here. simpl. now rewrite load_store_uint.
Qed.

(** Moves a read past the members stored in front of it. *)
Ltac skip_members :=
  repeat match goal with
  | |- context [uint_at ?bo (store_uint ?bo ?m ?x ++ ?l) ?off ?size] =>
      lazymatch eval compute in (m <=? off)%nat with
      | true =>
          let off' := eval compute in (off - m)%nat in
          change (uint_at bo (store_uint bo m x ++ l) off size)
            with (uint_at bo (store_uint bo m x ++ l) (m + off') size);
          rewrite (uint_at_skip_member m x l off' size)
      end
  end.

Lemma wh16_at_bytes (h : wh16_t) (pre post : list byte) :
  wf_wh16 h ->
  wh16_at bo (pre ++ bytes_of_wh16 bo h ++ post) (length pre) = Some h.
Proof.
  intros (Hmt & Hkc & Hann & Hver & Hcap & Hrid & Hn).
  unfold wh16_at, bytes_of_wh16.
  repeat rewrite <- app_assoc.
  rewrite uint_at_skip_0. repeat rewrite uint_at_skip.
  skip_members.
  repeat rewrite uint_at_member. cbn [bind].
  change (to_unsigned (Z.of_nat 1 * 8)) with to_uint8.
  change (to_unsigned (Z.of_nat 4 * 8)) with to_uint32.
  rewrite !to_uint8_id, !to_uint32_id by assumption.
  now destruct h.
Qed.

Lemma kv32_at_bytes (p : kv32_t) (pre post : list byte) :
  wf_kv32 p ->
  kv32_at bo (pre ++ bytes_of_kv32 bo p ++ post) (length pre) = Some p.
Proof.
  intros [Hk Hv].
  unfold kv32_at, bytes_of_kv32.
  repeat rewrite <- app_assoc.
  rewrite uint_at_skip_0, uint_at_skip.
  skip_members.
  repeat rewrite uint_at_member. cbn [bind].
  change (to_unsigned (Z.of_nat 4 * 8)) with to_uint32.
  rewrite !to_uint32_id by assumption.
  now destruct p.
Qed.

(** The whole array is read back, whatever surrounds it in the buffer. *)
Lemma kv32_array_at_bytes (kvs : list kv32_t) :
  Forall wf_kv32 kvs ->
  forall pre post : list byte,
    kv32_array_at bo (pre ++ bytes_of_kv32_array bo kvs ++ post)
                  (length pre) (length kvs) = Some kvs.
Proof.
  induction 1 as [| p kvs Hp Hkvs IH]; intros pre post.
  - reflexivity.
  - cbn [kv32_array_at bytes_of_kv32_array flat_map length].
    fold (bytes_of_kv32_array bo kvs).
    rewrite <- app_assoc. rewrite kv32_at_bytes by assumption. cbn [bind].
    change (Z.to_nat sizeof_kv32_t) with 8%nat.
    rewrite <- (length_bytes_of_kv32 p), <- length_app.
    rewrite app_assoc. rewrite IH. reflexivity.
Qed.

(** Indexing the array gives its elements, in order. *)
Lemma kv32_index_bytes (kvs : list kv32_t) :
  Forall wf_kv32 kvs ->
  forall (pre post : list byte) (i : nat) (p : kv32_t),
    nth_error kvs i = Some p ->
    kv32_index bo (pre ++ bytes_of_kv32_array bo kvs ++ post) (length pre) i
    = Some p.
Proof.
  unfold kv32_index. change (Z.to_nat sizeof_kv32_t) with 8%nat.
  induction 1 as [| q kvs Hq Hkvs IH]; intros pre post i p Hnth.
  - destruct i; discriminate.
  - destruct i as [| i]; simpl in Hnth.
    + injection Hnth as ->.
      cbn [bytes_of_kv32_array flat_map Nat.mul]. rewrite Nat.add_0_r, <- app_assoc.
      now apply kv32_at_bytes.
    + cbn [bytes_of_kv32_array flat_map]. fold (bytes_of_kv32_array bo kvs).
      rewrite <- app_assoc, app_assoc.
      replace (length pre + S i * 8)%nat
        with (length (pre ++ bytes_of_kv32 bo q) + i * 8)%nat
        by (rewrite length_app, length_bytes_of_kv32; lia).
      now apply IH.
Qed.

(** ** Copies into a buffer *)

Lemma memcpy_defined (dst src : list byte) (off len : nat) :
  (off + len <= length dst)%nat -> (len <= length src)%nat ->
  memcpy dst off src len
  = Some (firstn off dst ++ firstn len src ++ skipn (off + len) dst).
Proof.
  intros Hdst Hsrc. unfold memcpy.
  destruct (Nat.leb_spec (off + len) (length dst)); try lia.
  destruct (Nat.leb_spec len (length src)); try lia.
  reflexivity.
Qed.

Lemma length_memcpy (dst src msg : list byte) (off len : nat) :
  memcpy dst off src len = Some msg -> length msg = length dst.
Proof.
  unfold memcpy.
  destruct (Nat.leb_spec (off + len) (length dst)); simpl; try discriminate.
  destruct (Nat.leb_spec len (length src)); simpl; try discriminate.
  intros [= <-].
  rewrite !length_app, !length_firstn, length_skipn. lia.
Qed.

(** A buffer of exactly the size of the message holds, after the two
    copies, the header followed by the pairs and nothing else. *)
Lemma assemble_bytes (msg : list byte) (header : wh16_t)
  (kvs : list kv32_t) :
  length msg = (16 + 8 * length kvs)%nat ->
  assemble bo msg header kvs (Z.of_nat (8 * length kvs))
  = Some (bytes_of_wh16 bo header ++ bytes_of_kv32_array bo kvs).
Proof.
  intros Hlen. unfold assemble.
  change (Z.to_nat sizeof_wh16_t) with 16%nat.
  rewrite Nat2Z.id.
  rewrite memcpy_defined
    by (rewrite ?length_bytes_of_wh16; lia).
  cbn [bind].
  rewrite <- (length_bytes_of_wh16 header) at 1.
  rewrite firstn_all. cbn [firstn app Nat.add].
  rewrite memcpy_defined
    by (rewrite ?length_app, ?length_skipn, ?length_bytes_of_wh16,
          ?length_bytes_of_kv32_array; lia).
  f_equal.
  rewrite <- (length_bytes_of_wh16 header) at 1.
  rewrite firstn_app, firstn_all, Nat.sub_diag, firstn_O.
  rewrite app_nil_r. f_equal.
  rewrite <- (length_bytes_of_kv32_array kvs) at 1.
  rewrite firstn_all.
  rewrite skipn_all2
    by (rewrite length_app, length_skipn, length_bytes_of_wh16; lia).
  apply app_nil_r.
Qed.

(** A header stored anywhere in a buffer is read back unchanged, and so is
    every message made of a header and an array of pairs. *)
Lemma message_roundtrip (msg : list byte) (header : wh16_t)
  (kvs : list kv32_t) :
  wf_wh16 header -> Forall wf_kv32 kvs ->
  length msg = (16 + 8 * length kvs)%nat ->
  exists msg',
    assemble bo msg header kvs (Z.of_nat (8 * length kvs)) = Some msg'
    /\ length msg' = length msg
    /\ read_header bo msg' = Some header
    /\ kv32_array_at bo msg' (Z.to_nat sizeof_wh16_t) (length kvs) = Some kvs
    /\ (forall i p, nth_error kvs i = Some p -> read_kvs bo msg' i = Some p).
Proof.
  intros Hh Hkvs Hlen.
  exists (bytes_of_wh16 bo header ++ bytes_of_kv32_array bo kvs).
  assert (Hpost : bytes_of_kv32_array bo kvs = bytes_of_kv32_array bo kvs ++ [])
    by (now rewrite app_nil_r).
  split_members.
  - now apply assemble_bytes.
  - rewrite length_app, length_bytes_of_wh16, length_bytes_of_kv32_array. lia.
  - now apply (wh16_at_bytes header []).
  - change (Z.to_nat sizeof_wh16_t) with 16%nat.
    rewrite <- (length_bytes_of_wh16 header), Hpost.
    now apply kv32_array_at_bytes.
  - intros i p Hnth. unfold read_kvs.
    change (Z.to_nat sizeof_wh16_t) with 16%nat.
    rewrite <- (length_bytes_of_wh16 header), Hpost.
    now apply kv32_index_bytes.
Qed.

End Representation.

(** * The wire format contract *)

(** ** Header construction *)

(** C1: for arguments within the ranges of the members ([mt], [kc], [ann] on
    8 bits; [cap], [rid], [n] on 32 bits), the header [WH] builds has exactly
    these values as members and [ver] equal to 1, and its object
    representation has exactly 16 bytes, the size of the structure, on either
    byte order.  [WH] is a total function: there is no input on which
    construction fails. *)
Theorem WH_members_and_size (m c a p r len : Z) :
  is_uint8 m -> is_uint8 c -> is_uint8 a ->
  is_uint32 p -> is_uint32 r -> is_uint32 len ->
  let h := WH m c a p r len in
  mt h = m /\ kc h = c /\ ann h = a /\ cap h = p /\ rid h = r /\ n h = len
  /\ ver h = 1
  /\ sizeof_wh16_t = 16
  /\ forall bo : byte_order,
       Z.of_nat (length (bytes_of_wh16 bo h)) = sizeof_wh16_t.
Proof.
  intros Hm Hc Ha Hp Hr Hlen h. subst h. unfold WH; simpl.
  split_members;
    try (now apply to_uint8_id); try (now apply to_uint32_id);
    try reflexivity.
  intros bo. now rewrite length_bytes_of_wh16.
Qed.

Lemma WH_members_and_size_witness :
  (is_uint8 0x02 /\ is_uint8 0x10 /\ is_uint8 0x07
   /\ is_uint32 0x30000000 /\ is_uint32 1 /\ is_uint32 100)
  /\ (let h := WH 0x02 0x10 0x07 0x30000000 1 100 in
      mt h = 0x02 /\ kc h = 0x10 /\ ann h = 0x07
      /\ cap h = 0x30000000 /\ rid h = 1 /\ n h = 100
      /\ ver h = 1
      /\ sizeof_wh16_t = 16
      /\ forall bo : byte_order,
           Z.of_nat (length (bytes_of_wh16 bo h)) = sizeof_wh16_t).
Proof.
  assert (H8 : forall x, 0 <= x <= 255 -> is_uint8 x)
    by (unfold is_uint8, UINT8_MAX; lia).
  assert (H32 : forall x, 0 <= x <= 4294967295 -> is_uint32 x)
    by (unfold is_uint32, UINT32_MAX; lia).
  split.
  - split_members; first [apply H8 | apply H32]; lia.
  - apply (WH_members_and_size 0x02 0x10 0x07 0x30000000 1 100);
      first [apply H8 | apply H32]; lia.
Defined.

(** C9: the members [mt], [kc] and [ann] that [WH] stores are its arguments
    reduced modulo 2^8, whatever the arguments: the stored value keeps the
    eight low bits of the argument and none of the others, so arguments that
    differ by a multiple of 256 give the same member, and 256 itself is
    stored as 0. Nothing is rejected. *)
Theorem WH_truncates_to_8_bits (m c a p r len : Z) :
  let h := WH m c a p r len in
  (mt h = m mod 2 ^ 8 /\ kc h = c mod 2 ^ 8 /\ ann h = a mod 2 ^ 8)
  /\ (is_uint8 (mt h) /\ is_uint8 (kc h) /\ is_uint8 (ann h))
  /\ (forall i : N,
        Z.testbit (mt h) (Z.of_N i) = Z.testbit m (Z.of_N i) && (Z.of_N i <? 8)
        /\ Z.testbit (kc h) (Z.of_N i) = Z.testbit c (Z.of_N i) && (Z.of_N i <? 8)
        /\ Z.testbit (ann h) (Z.of_N i) = Z.testbit a (Z.of_N i) && (Z.of_N i <? 8))
  /\ (forall q : Z,
        mt (WH (m + 256 * q) c a p r len) = mt h
        /\ kc (WH m (c + 256 * q) a p r len) = kc h
        /\ ann (WH m c (a + 256 * q) p r len) = ann h)
  /\ mt (WH 256 c a p r len) = 0
  /\ mt (WH (256 + M_UPSERT) c a p r len) = M_UPSERT.
Proof.
  intros h. subst h. unfold WH; cbn [mt kc ann].
  split; [| split; [| split; [| split]]].
  - now unfold to_uint8, to_unsigned.
  - split_members; apply to_uint8_range.
  - intros i. unfold to_uint8.
    split_members; apply to_unsigned_testbit; lia.
  - intros q. unfold to_uint8, to_unsigned.
    change (2 ^ 8) with 256. rewrite (Z.mul_comm 256 q).
    split_members; apply Z.mod_add; discriminate.
  - split; reflexivity.
Qed.

(** ** Record ID ranges *)

Lemma rid_between_iff (lo hi r : Z) : rid_between lo hi r = true <-> lo <= r <= hi.
Proof. unfold rid_between. rewrite andb_true_iff, !Z.leb_le. tauto. Qed.

Lemma RID_IS_VALID_iff (r : Z) :
  RID_IS_VALID r = true <-> RID_SYSTEM_MIN <= r <= RID_TEMP_MAX.
Proof. apply rid_between_iff. Qed.

Lemma RID_IS_SYSTEM_iff (r : Z) :
  RID_IS_SYSTEM r = true <-> RID_SYSTEM_MIN <= r <= RID_SYSTEM_MAX.
Proof. apply rid_between_iff. Qed.

Lemma RID_IS_USER_iff (r : Z) :
  RID_IS_USER r = true <-> RID_USER_MIN <= r <= RID_USER_MAX.
Proof. apply rid_between_iff. Qed.

Lemma rid_in_snapshot_range_iff (r : Z) :
  rid_in_snapshot_range r = true <-> RID_SNAPSHOT_MIN <= r <= RID_SNAPSHOT_MAX.
Proof. apply rid_between_iff. Qed.

Lemma rid_in_temp_range_iff (r : Z) :
  rid_in_temp_range r = true <-> RID_TEMP_MIN <= r <= RID_TEMP_MAX.
Proof. apply rid_between_iff. Qed.

(** Turns the range tests of a goal and of the context into inequalities
    between integers, bounds unfolded. *)
Ltac rid_bounds :=
  rewrite ?RID_IS_VALID_iff, ?RID_IS_SYSTEM_iff, ?RID_IS_USER_iff,
    ?rid_in_snapshot_range_iff, ?rid_in_temp_range_iff in *;
  unfold RID_SYSTEM_MIN, RID_SYSTEM_MAX, RID_USER_MIN, RID_USER_MAX,
    RID_SNAPSHOT_MIN, RID_SNAPSHOT_MAX, RID_TEMP_MIN, RID_TEMP_MAX in *.

(** Two closed intervals, the first ending below the start of the second,
    have no common element. *)
Lemma rid_between_disjoint (lo1 hi1 lo2 hi2 r : Z) :
  hi1 < lo2 -> rid_between lo1 hi1 r && rid_between lo2 hi2 r = false.
Proof.
  intros Hlt. apply not_true_is_false. rewrite andb_true_iff, !rid_between_iff. lia.
Qed.

(** C2: a record ID is valid exactly when it lies in one of the four ranges
    SYSTEM, USER, SNAPSHOT, TEMP, and exactly when it lies between
    [RID_SYSTEM_MIN] and [RID_TEMP_MAX]; each range starts right after the
    end of the one before it. [RID_TEMP_MAX + 1], which is 0x30000000, is
    not valid. The statement holds for every integer, hence for every 32-bit
    one. *)
Theorem RID_IS_VALID_union (r : Z) :
  (RID_IS_VALID r = true
   <-> RID_IS_SYSTEM r = true \/ RID_IS_USER r = true
       \/ rid_in_snapshot_range r = true \/ rid_in_temp_range r = true)
  /\ (RID_IS_VALID r = existsb (fun range => range r) rid_ranges)
  /\ (RID_IS_VALID r = true <-> RID_SYSTEM_MIN <= r <= RID_TEMP_MAX)
  /\ (RID_USER_MIN = RID_SYSTEM_MAX + 1
      /\ RID_SNAPSHOT_MIN = RID_USER_MAX + 1
      /\ RID_TEMP_MIN = RID_SNAPSHOT_MAX + 1)
  /\ (RID_SYSTEM_MIN <= RID_SYSTEM_MAX /\ RID_USER_MIN <= RID_USER_MAX
      /\ RID_SNAPSHOT_MIN <= RID_SNAPSHOT_MAX /\ RID_TEMP_MIN <= RID_TEMP_MAX)
  /\ to_uint32 (RID_TEMP_MAX + 1) = 0x30000000
  /\ RID_IS_VALID 0x30000000 = false.
Proof.
  assert (Hunion :
    RID_IS_VALID r = true
    <-> RID_IS_SYSTEM r = true \/ RID_IS_USER r = true
        \/ rid_in_snapshot_range r = true \/ rid_in_temp_range r = true)
    by (rid_bounds; lia).
  split; [exact Hunion |]. split.
  - apply eq_true_iff_eq. rewrite Hunion. unfold rid_ranges. simpl existsb.
    rewrite !orb_true_iff. intuition discriminate.
  - split; [apply RID_IS_VALID_iff |].
    split_members; try reflexivity; rid_bounds; lia.
Qed.

(** C7: no record ID lies in two of the four ranges SYSTEM, USER, SNAPSHOT,
    TEMP: any two of them, taken in the order of their declaration, are
    never both true, and in particular [RID_IS_SYSTEM] and [RID_IS_USER].
    [RID_SYSTEM_MIN] is a system ID and not a user ID; [RID_USER_MIN] is a
    user ID and not a system ID. *)
Theorem rid_ranges_pairwise_disjoint :
  ForallOrdPairs (fun range1 range2 => forall r : Z, range1 r && range2 r = false)
                 rid_ranges
  /\ (forall r : Z, RID_IS_SYSTEM r && RID_IS_USER r = false)
  /\ (RID_IS_SYSTEM RID_SYSTEM_MIN = true /\ RID_IS_USER RID_SYSTEM_MIN = false)
  /\ (RID_IS_USER RID_USER_MIN = true /\ RID_IS_SYSTEM RID_USER_MIN = false).
Proof.
  split; [| split; [| split; split; reflexivity]].
  - unfold rid_ranges.
    repeat constructor; intros r;
      apply rid_between_disjoint; reflexivity.
  - intros r. apply rid_between_disjoint. reflexivity.
Qed.

(** ** Capability flags *)

Lemma capability_flag_high (f : Z) :
  In f capability_flags -> Z.land f below_capability_flags = 0.
Proof.
  unfold capability_flags. simpl In.
  intros H. repeat (destruct H as [<- | H]; [reflexivity |]). contradiction.
Qed.

(** No union of capability flags has a bit among the 24 low ones. *)
Lemma flags_union_high (flags : list Z) :
  incl flags capability_flags ->
  Z.land (flags_union flags) below_capability_flags = 0.
Proof.
  induction flags as [| f flags IH]; intros Hincl.
  - reflexivity.
  - cbn [flags_union fold_right]. fold (flags_union flags).
    rewrite Z.land_lor_distr_l.
    rewrite capability_flag_high by (apply Hincl; now left).
    rewrite IH by (intros g Hg; apply Hincl; now right).
    reflexivity.
Qed.

(** The claim fails on [CAP_FULL]: it is no union of the eight flags, since
    its bit 0 is set and belongs to none of them. *)
Lemma CAP_FULL_not_union_of_flags :
  ~ union_of_capability_flags CAP_FULL
  /\ Z.testbit CAP_FULL 0 = true
  /\ Forall (fun f => Z.testbit f 0 = false) capability_flags
  /\ Z.land CAP_FULL (Z.lnot (flags_union capability_flags)) <> 0.
Proof.
  split; [| split; [reflexivity | split; [| discriminate]]].
  - intros (flags & Hincl & Hfull).
    apply flags_union_high in Hincl. rewrite <- Hfull in Hincl.
    discriminate Hincl.
  - unfold capability_flags. repeat constructor.
Qed.

(** C3, as the header has it: the eight capability flags are eight different
    powers of two, from 2^24 (0x01000000) to 2^31 (0x80000000);
    [CAP_STANDARD] and [CAP_EXTENDED] are unions of these flags; [CAP_FULL]
    is the word 0xFFFFFFFF with all 32 bits set: it contains each of the
    eight flags, and besides them the 24 low bits that are no capability
    flag. *)
Theorem capability_flags_layout :
  map Z.log2 capability_flags = [28; 29; 30; 31; 24; 25; 26; 27]
  /\ Forall (fun f => f = 2 ^ Z.log2 f /\ 0x01000000 <= f <= 0x80000000)
            capability_flags
  /\ NoDup capability_flags
  /\ length capability_flags = 8%nat
  /\ CAP_STANDARD = flags_union [P_TOOLS; P_APPS]
  /\ CAP_EXTENDED = flags_union [P_TOOLS; P_APPS; P_FILES]
  /\ union_of_capability_flags CAP_STANDARD
  /\ union_of_capability_flags CAP_EXTENDED
  /\ CAP_FULL = 0xFFFFFFFF
  /\ Forall (fun f => Z.land CAP_FULL f = f) capability_flags
  /\ CAP_FULL = Z.lor (flags_union capability_flags) below_capability_flags
  /\ Z.land (flags_union capability_flags) below_capability_flags = 0.
Proof.
  split_members; try reflexivity.
  - unfold capability_flags. repeat constructor; discriminate.
  - unfold capability_flags.
    repeat (constructor; [simpl In; intuition discriminate |]). constructor.
  - exists [P_TOOLS; P_APPS]. split; [| reflexivity].
    intros f Hf. unfold capability_flags. simpl In in *. tauto.
  - exists [P_TOOLS; P_APPS; P_FILES]. split; [| reflexivity].
    intros f Hf. unfold capability_flags. simpl In in *. tauto.
  - unfold capability_flags. repeat constructor.
Qed.

(** ** Annotation bits *)

(** C5: [T_R] has the read permission and not the write permission;
    [ANN_RW] has read and write and not delete; [ANN_FULL] has read, write
    and delete, and contains the execute bit. *)
Theorem annotation_predicates :
  (HAS_READ T_R = true /\ HAS_WRITE T_R = false)
  /\ (HAS_READ ANN_RW = true /\ HAS_WRITE ANN_RW = true
      /\ HAS_DELETE ANN_RW = false)
  /\ (HAS_READ ANN_FULL = true /\ HAS_WRITE ANN_FULL = true
      /\ HAS_DELETE ANN_FULL = true)
  /\ Z.land ANN_FULL T_X = T_X.
Proof. split_members; reflexivity. Qed.

(** C10: [ANN_FULL] is [T_R | T_W | T_D | T_X], that is 0x0F, and has none
    of the four feature flags [T_SYNC], [T_COMPRESS], [T_ENCRYPT],
    [T_ARCHIVE]. *)
Theorem ANN_FULL_has_no_feature_flag :
  ANN_FULL = Z.lor (Z.lor (Z.lor T_R T_W) T_D) T_X
  /\ ANN_FULL = 0x0F
  /\ Z.land ANN_FULL T_SYNC = 0
  /\ Z.land ANN_FULL T_COMPRESS = 0
  /\ Z.land ANN_FULL T_ENCRYPT = 0
  /\ Z.land ANN_FULL T_ARCHIVE = 0.
Proof. split_members; reflexivity. Qed.

(** ** Size computation *)

Lemma sizeof_values :
  sizeof_wh16_t = 16 /\ sizeof_kv32_t = 8 /\ sizeof_bud_t = 12.
Proof. split_members; reflexivity. Qed.

(** What the two macros compute on every platform: the product and the sum,
    reduced to the width of [size_t]. *)
Lemma BYTES_KV_mod (size_bits count : Z) :
  BYTES_KV size_bits count = (count * 8) mod 2 ^ size_bits.
Proof.
  unfold BYTES_KV, to_size_t, to_unsigned.
  change sizeof_kv32_t with 8.
  destruct (Z.eq_dec (2 ^ size_bits) 0) as [Hz | Hnz].
  - rewrite Hz. now rewrite !Z.mod_0_r.
  - now rewrite Z.mul_mod_idemp_l.
Qed.

Lemma MSG_SIZE_mod (size_bits payload_bytes : Z) :
  MSG_SIZE size_bits payload_bytes = (16 + payload_bytes) mod 2 ^ size_bits.
Proof.
  unfold MSG_SIZE, to_size_t, to_unsigned.
  change sizeof_wh16_t with 16.
  destruct (Z.eq_dec (2 ^ size_bits) 0) as [Hz | Hnz].
  - rewrite Hz. now rewrite !Z.mod_0_r.
  - now rewrite Z.add_mod_idemp_r.
Qed.

(** The claim fails where the product or the sum does not fit [size_t]:
    with a [size_t] of 64 bits, 2^61 pairs need 0 bytes according to
    [BYTES_KV], and a payload of 2^64 - 16 bytes gives a message of 0 bytes;
    with a [size_t] of 32 bits the same happens at 2^29 pairs. *)
Lemma size_macros_wrap :
  (0 <= 2 ^ 61 < 2 ^ 64 /\ BYTES_KV 64 (2 ^ 61) = 0
   /\ BYTES_KV 64 (2 ^ 61) <> 2 ^ 61 * 8)
  /\ (0 <= 2 ^ 64 - 16 < 2 ^ 64 /\ MSG_SIZE 64 (2 ^ 64 - 16) = 0
      /\ MSG_SIZE 64 (2 ^ 64 - 16) <> 16 + (2 ^ 64 - 16))
  /\ (0 <= 2 ^ 29 < 2 ^ 32 /\ BYTES_KV 32 (2 ^ 29) = 0
      /\ BYTES_KV 32 (2 ^ 29) <> 2 ^ 29 * 8)
  /\ ~ (forall size_bits count : Z, BYTES_KV size_bits count = count * 8)
  /\ ~ (forall size_bits payload_bytes : Z,
          MSG_SIZE size_bits payload_bytes = 16 + payload_bytes).
Proof.
  split_members; try reflexivity; try discriminate.
  - intros H. specialize (H 64 (2 ^ 61)). discriminate H.
  - intros H. specialize (H 64 (2 ^ 64 - 16)). discriminate H.
Qed.

(** C6, as the macros have it: 8 and 16 are the sizes of the packed pair and
    header, the lengths of their object representations. For every count
    [count] of pairs whose byte size [count * 8] fits [size_t],
    [BYTES_KV count] is [count * 8]; for every payload size [payload_bytes]
    such that [16 + payload_bytes] fits [size_t], [MSG_SIZE payload_bytes]
    is [16 + payload_bytes]. On the values of the test, [BYTES_KV 3] is 24
    and [MSG_SIZE 24] is 40. The width [size_bits] of [size_t] is at least
    16, as C requires. *)
Theorem size_macros_exact (size_bits count payload_bytes : Z) :
  16 <= size_bits ->
  0 <= count -> count * 8 < 2 ^ size_bits ->
  0 <= payload_bytes -> 16 + payload_bytes < 2 ^ size_bits ->
  BYTES_KV size_bits count = count * 8
  /\ MSG_SIZE size_bits payload_bytes = 16 + payload_bytes
  /\ BYTES_KV size_bits 3 = 24
  /\ MSG_SIZE size_bits 24 = 40
  /\ sizeof_kv32_t = 8
  /\ sizeof_wh16_t = 16
  /\ (forall (bo : byte_order) (p : kv32_t),
        Z.of_nat (length (bytes_of_kv32 bo p)) = sizeof_kv32_t)
  /\ (forall (bo : byte_order) (h : wh16_t),
        Z.of_nat (length (bytes_of_wh16 bo h)) = sizeof_wh16_t).
Proof.
  intros Hbits Hcount Hbytes Hpayload Hmsg.
  assert (Hmax : 2 ^ 16 <= 2 ^ size_bits) by (apply Z.pow_le_mono_r; lia).
  split_members; try reflexivity;
    rewrite ?BYTES_KV_mod, ?MSG_SIZE_mod; try (apply Z.mod_small; lia).
  - intros bo p. now rewrite length_bytes_of_kv32.
  - intros bo h. now rewrite length_bytes_of_wh16.
Qed.

Lemma size_macros_exact_witness :
  (16 <= 64 /\ 0 <= 3 /\ 3 * 8 < 2 ^ 64 /\ 0 <= 24 /\ 16 + 24 < 2 ^ 64)
  /\ (BYTES_KV 64 3 = 3 * 8
      /\ MSG_SIZE 64 24 = 16 + 24
      /\ BYTES_KV 64 3 = 24
      /\ MSG_SIZE 64 24 = 40
      /\ sizeof_kv32_t = 8
      /\ sizeof_wh16_t = 16
      /\ (forall (bo : byte_order) (p : kv32_t),
            Z.of_nat (length (bytes_of_kv32 bo p)) = sizeof_kv32_t)
      /\ (forall (bo : byte_order) (h : wh16_t),
            Z.of_nat (length (bytes_of_wh16 bo h)) = sizeof_wh16_t)).
Proof.
  split.
  - lia.
  - apply (size_macros_exact 64 3 24); lia.
Defined.

(** ** Budget *)

(** C8: for a budget built by [BUD] from a capacity and used credits that
    are 32-bit values, the used credits not exceeding the capacity, the
    members are the two arguments, the precondition
    [used_credits <= cap_credits] holds, and the 32-bit subtraction
    [cap_credits - used_credits] is the exact difference of the arguments,
    [cap - used]: it does not wrap around. For [BUD 1 1000000 50000] the
    remaining credits are 950000. *)
Theorem BUD_remaining_exact (m c u : Z) :
  is_uint32 c -> is_uint32 u -> u <= c ->
  let b := BUD m c u in
  cap_credits b = c
  /\ used_credits b = u
  /\ used_credits b <= cap_credits b
  /\ remaining b = c - u
  /\ remaining b = cap_credits b - used_credits b
  /\ is_uint32 (remaining b)
  /\ remaining (BUD 1 1000000 50000) = 950000.
Proof.
  intros Hc Hu Hle b. subst b.
  unfold remaining, BUD. cbn [cap_credits used_credits].
  rewrite (to_uint32_id c), (to_uint32_id u) by assumption.
  assert (Hdiff : to_uint32 (c - u) = c - u).
  { apply to_uint32_id. unfold is_uint32 in *. lia. }
  rewrite Hdiff.
  split_members; try reflexivity.
  - exact Hle.
  - unfold is_uint32 in *. lia.
Qed.

Lemma BUD_remaining_exact_witness :
  (is_uint32 1000000 /\ is_uint32 50000 /\ 50000 <= 1000000)
  /\ (let b := BUD 1 1000000 50000 in
      cap_credits b = 1000000
      /\ used_credits b = 50000
      /\ used_credits b <= cap_credits b
      /\ remaining b = 1000000 - 50000
      /\ remaining b = cap_credits b - used_credits b
      /\ is_uint32 (remaining b)
      /\ remaining (BUD 1 1000000 50000) = 950000).
Proof.
  assert (Hc : is_uint32 1000000) by (unfold is_uint32, UINT32_MAX; lia).
  assert (Hu : is_uint32 50000) by (unfold is_uint32, UINT32_MAX; lia).
  assert (Hle : 50000 <= 1000000) by lia.
  split.
  - split_members; assumption.
  - apply (BUD_remaining_exact 1 1000000 50000 Hc Hu Hle).
Defined.

(** ** Message assembly *)

(** C4: the message of [test_full_message] is the header
    [WH M_UPSERT K_MCP ANN_MCP CAP_STANDARD RID_USER_MIN 24] copied to the
    start of a buffer of 40 bytes, followed by the 24 bytes of three pairs.
    Whatever the buffer held before, whatever the byte order and the three
    pairs: the assembled buffer is the 16 bytes of the header followed by
    the 24 bytes of the pairs; the header read back from it is the one that
    was written, with [mt] equal to [M_UPSERT] and [n] equal to 24; [n]
    counts three pairs of 8 bytes; and the three pairs read back from the
    payload are the original ones, in the original order. *)
Theorem full_message_roundtrip (bo : byte_order) (buf : list byte)
  (k0 v0 k1 v1 k2 v2 : Z) :
  let kvs := [KV k0 v0; KV k1 v1; KV k2 v2] in
  let header := WH M_UPSERT K_MCP ANN_MCP CAP_STANDARD RID_USER_MIN 24 in
  length buf = 40%nat ->
  exists (msg : list byte) (h : wh16_t),
    assemble bo buf header kvs 24 = Some msg
    /\ msg = bytes_of_wh16 bo header ++ bytes_of_kv32_array bo kvs
    /\ length (bytes_of_wh16 bo header) = 16%nat
    /\ length (bytes_of_kv32_array bo kvs) = 24%nat
    /\ length msg = 40%nat
    /\ read_header bo msg = Some h
    /\ h = header
    /\ mt h = M_UPSERT
    /\ n h = 24
    /\ n h / sizeof_kv32_t = 3
    /\ kv32_array_at bo msg (Z.to_nat sizeof_wh16_t) 3 = Some kvs
    /\ read_kvs bo msg 0 = Some (KV k0 v0)
    /\ read_kvs bo msg 1 = Some (KV k1 v1)
    /\ read_kvs bo msg 2 = Some (KV k2 v2).
Proof.
  intros kvs header Hlen.
  assert (Hkvs : Forall wf_kv32 kvs) by (repeat constructor; apply KV_wf).
  destruct (message_roundtrip bo buf header kvs (WH_wf _ _ _ _ _ _) Hkvs Hlen)
    as (msg & Hmsg & Hlength & Hheader & Harray & Hindex).
  assert (Hbytes : assemble bo buf header kvs 24
                   = Some (bytes_of_wh16 bo header ++ bytes_of_kv32_array bo kvs))
    by (now apply (assemble_bytes bo buf header kvs)).
  exists msg, header.
  change (Z.of_nat (8 * length kvs)) with 24 in Hmsg.
  split_members; try reflexivity.
  - exact Hmsg.
  - congruence.
  - apply length_bytes_of_wh16.
  - now rewrite length_bytes_of_kv32_array.
  - congruence.
  - exact Hheader.
  - exact Harray.
  - now apply Hindex.
  - now apply Hindex.
  - now apply Hindex.
Qed.

Lemma full_message_roundtrip_witness :
  let buf := repeat Byte.x00 40 in
  let kvs := [KV 0x1001 0x2002; KV 0x3003 0x4004; KV 0x5005 0x6006] in
  let header := WH M_UPSERT K_MCP ANN_MCP CAP_STANDARD RID_USER_MIN 24 in
  length buf = 40%nat
  /\ exists (msg : list byte) (h : wh16_t),
       assemble LittleEndian buf header kvs 24 = Some msg
       /\ msg = bytes_of_wh16 LittleEndian header
                ++ bytes_of_kv32_array LittleEndian kvs
       /\ length (bytes_of_wh16 LittleEndian header) = 16%nat
       /\ length (bytes_of_kv32_array LittleEndian kvs) = 24%nat
       /\ length msg = 40%nat
       /\ read_header LittleEndian msg = Some h
       /\ h = header
       /\ mt h = M_UPSERT
       /\ n h = 24
       /\ n h / sizeof_kv32_t = 3
       /\ kv32_array_at LittleEndian msg (Z.to_nat sizeof_wh16_t) 3 = Some kvs
       /\ read_kvs LittleEndian msg 0 = Some (KV 0x1001 0x2002)
       /\ read_kvs LittleEndian msg 1 = Some (KV 0x3003 0x4004)
       /\ read_kvs LittleEndian msg 2 = Some (KV 0x5005 0x6006).
Proof.
  split.
  - reflexivity.
  - apply (full_message_roundtrip LittleEndian (repeat Byte.x00 40)
             0x1001 0x2002 0x3003 0x4004 0x5005 0x6006).
    reflexivity.
Defined.

(** * Further properties of the header and of its test suite *)

(** ** Single-bit flags *)

(** The bitwise and with a power of two is that power or zero, as the bit
    is set or not. *)
Lemma land_pow2 (a i : Z) :
  0 <= i -> Z.land a (2 ^ i) = if Z.testbit a i then 2 ^ i else 0.
Proof.
  intros Hi. apply Z.bits_inj'. intros j Hj.
  rewrite Z.land_spec, Z.pow2_bits_eqb by assumption.
  destruct (Z.eqb_spec i j) as [-> | Hne].
  - destruct (Z.testbit a j) eqn:Hbit.
    + now rewrite Z.pow2_bits_true.
    + now rewrite Z.bits_0.
  - rewrite andb_false_r.
    destruct (Z.testbit a i).
    + now rewrite Z.pow2_bits_false.
    + now rewrite Z.bits_0.
Qed.

Lemma has_flag_pow2 (a i : Z) :
  0 <= i -> has_flag a (2 ^ i) = Z.testbit a i.
Proof.
  intros Hi. unfold has_flag. rewrite land_pow2 by assumption.
  destruct (Z.testbit a i).
  - assert (0 < 2 ^ i) by (apply Z.pow_pos_nonneg; lia).
    destruct (Z.eqb_spec (2 ^ i) 0); [lia | reflexivity].
  - reflexivity.
Qed.

Lemma HAS_READ_testbit (a : Z) : HAS_READ a = Z.testbit a 0.
Proof. apply (has_flag_pow2 a 0). lia. Qed.

Lemma HAS_WRITE_testbit (a : Z) : HAS_WRITE a = Z.testbit a 1.
Proof. apply (has_flag_pow2 a 1). lia. Qed.

Lemma HAS_DELETE_testbit (a : Z) : HAS_DELETE a = Z.testbit a 2.
Proof. apply (has_flag_pow2 a 2). lia. Qed.

Lemma annotation_flags_single_bit : Forall single_bit annotation_flags.
Proof.
  unfold annotation_flags.
  repeat constructor;
    [exists 0 | exists 1 | exists 2 | exists 3
     | exists 4 | exists 5 | exists 6 | exists 7];
    (split; [lia | reflexivity]).
Qed.

Lemma capability_flags_single_bit : Forall single_bit capability_flags.
Proof.
  unfold capability_flags.
  repeat constructor;
    [exists 28 | exists 29 | exists 30 | exists 31
     | exists 24 | exists 25 | exists 26 | exists 27];
    (split; [lia | reflexivity]).
Qed.

(** The union of the flags that a mask holds is the part of the mask that
    lies within the flags. *)
Lemma flags_held_union (flags : list Z) (mask : Z) :
  Forall single_bit flags ->
  flags_union (flags_held flags mask) = Z.land mask (flags_union flags).
Proof.
  induction 1 as [| f flags (i & Hi & ->) Hflags IH].
  - cbn. now rewrite Z.land_0_r.
  - cbn [flags_held filter flags_union fold_right].
    fold (flags_held flags mask). fold (flags_union flags).
    rewrite Z.land_lor_distr_r, <- IH.
    rewrite has_flag_pow2, land_pow2 by assumption.
    destruct (Z.testbit mask i).
    + reflexivity.
    + now rewrite Z.lor_0_l.
Qed.

(** ** Bounds of the accesses to a buffer *)

Lemma read_bytes_defined (buf : list byte) (off len : nat) :
  read_bytes buf off len <> None <-> (off + len <= length buf)%nat.
Proof.
  unfold read_bytes.
  destruct (Nat.leb_spec (off + len) (length buf)); split;
    intros; try lia; try discriminate; congruence.
Qed.

Lemma uint_at_defined (bo : byte_order) (buf : list byte) (off size : nat) :
  uint_at bo buf off size <> None <-> (off + size <= length buf)%nat.
Proof.
  unfold uint_at. rewrite <- read_bytes_defined.
  destruct (read_bytes buf off size); cbn [bind]; split;
    intros; try discriminate; congruence.
Qed.

Lemma uint_at_none (bo : byte_order) (buf : list byte) (off size : nat) :
  (length buf < off + size)%nat -> uint_at bo buf off size = None.
Proof.
  intros Hlt. destruct (uint_at bo buf off size) eqn:E; [| reflexivity].
  assert (Hdef : uint_at bo buf off size <> None) by congruence.
  apply uint_at_defined in Hdef. lia.
Qed.

Lemma uint_at_some (bo : byte_order) (buf : list byte) (off size : nat) :
  (off + size <= length buf)%nat -> exists x, uint_at bo buf off size = Some x.
Proof.
  intros Hle. destruct (uint_at bo buf off size) eqn:E; [eauto |].
  apply (proj2 (uint_at_defined bo buf off size)) in Hle. contradiction.
Qed.

(** Gives its value to every member read that is within the buffer. *)
Ltac reads_in_bounds :=
  repeat match goal with
  | |- context [uint_at ?bo ?buf ?off ?size] =>
      let x := fresh "x" in
      let E := fresh "E" in
      destruct (uint_at_some bo buf off size) as [x E];
      [lia | rewrite E; cbn [bind]; clear E]
  end.

(** Finds a member read that is outside the buffer; the reads made before
    it succeed or not, and the result is undefined in both cases. *)
Ltac read_out_of_bounds :=
  match goal with
  | |- context [uint_at ?bo ?buf ?off ?size] =>
      rewrite (uint_at_none bo buf off size) by lia
  end;
  repeat match goal with
  | |- context [bind (uint_at ?bo ?buf ?off ?size) _] =>
      destruct (uint_at bo buf off size); cbn [bind]
  end.

Lemma read_header_defined (bo : byte_order) (msg : list byte) :
  read_header bo msg <> None <-> (16 <= length msg)%nat.
Proof.
  unfold read_header, wh16_at.
  destruct (Nat.le_gt_cases 16 (length msg)) as [Hle | Hgt].
  - reads_in_bounds. split; [lia | discriminate].
  - read_out_of_bounds; split; intros; try lia; congruence.
Qed.

Lemma read_kvs_defined (bo : byte_order) (msg : list byte) (i : nat) :
  read_kvs bo msg i <> None <-> (16 + 8 * (i + 1) <= length msg)%nat.
Proof.
  unfold read_kvs, kv32_index, kv32_at.
  change (Z.to_nat sizeof_wh16_t) with 16%nat.
  change (Z.to_nat sizeof_kv32_t) with 8%nat.
  destruct (Nat.le_gt_cases (16 + 8 * (i + 1)) (length msg)) as [Hle | Hgt].
  - reads_in_bounds. split; [lia | discriminate].
  - read_out_of_bounds; split; intros; try lia; congruence.
Qed.

(** X1: the header is read from a buffer exactly when the buffer has the 16
    bytes of a header, and pair [i] of the payload exactly when the buffer
    has, after the header, the bytes of [i + 1] pairs: every other read is
    outside the buffer. *)
Theorem reads_defined_iff_in_bounds (bo : byte_order) (msg : list byte) (i : nat) :
  (read_header bo msg <> None <-> (16 <= length msg)%nat)
  /\ (read_kvs bo msg i <> None <-> (16 + 8 * (i + 1) <= length msg)%nat).
Proof.
  split; [apply read_header_defined | apply read_kvs_defined].
Qed.

(** X2: what the two copies of [test_full_message] leave in a buffer of any
    size. When the buffer has room for the header and [payload_size] bytes,
    and the array of pairs has that many bytes, the buffer holds the header,
    then the first [payload_size] bytes of the pairs, then its former
    contents, unchanged, from offset [16 + payload_size] on. In every other
    case a copy reads or writes outside an object. *)
Theorem assemble_result (bo : byte_order) (buf : list byte) (header : wh16_t)
  (kvs : list kv32_t) (payload_size : Z) :
  let len := Z.to_nat payload_size in
  assemble bo buf header kvs payload_size
  = if ((16 + len <=? length buf) && (len <=? 8 * length kvs))%nat
    then Some (bytes_of_wh16 bo header
               ++ firstn len (bytes_of_kv32_array bo kvs)
               ++ skipn (16 + len) buf)
    else None.
Proof.
  intros len. unfold assemble. fold len.
  change (Z.to_nat sizeof_wh16_t) with 16%nat.
  assert (Hfirst : memcpy buf 0 (bytes_of_wh16 bo header) 16
                   = if (16 <=? length buf)%nat
                     then Some (bytes_of_wh16 bo header ++ skipn 16 buf)
                     else None).
  { unfold memcpy.
    rewrite length_bytes_of_wh16, Nat.leb_refl, andb_true_r.
    rewrite firstn_O, Nat.add_0_l. cbn [app].
    now rewrite firstn_all2 by (rewrite length_bytes_of_wh16; lia). }
  rewrite Hfirst. clear Hfirst.
  destruct (Nat.leb_spec 16 (length buf)) as [H16 | H16]; cbn [bind].
  - unfold memcpy.
    rewrite length_app, length_skipn, length_bytes_of_wh16,
      length_bytes_of_kv32_array.
    replace (16 + (length buf - 16))%nat with (length buf) by lia.
    destruct ((16 + len <=? length buf)%nat && (len <=? 8 * length kvs)%nat);
      [| reflexivity].
    f_equal.
    rewrite <- (length_bytes_of_wh16 bo header) at 1.
    rewrite firstn_app, firstn_all, Nat.sub_diag, firstn_O, app_nil_r.
    f_equal. f_equal.
    rewrite skipn_app, length_bytes_of_wh16.
    rewrite skipn_all2 by (rewrite length_bytes_of_wh16; lia).
    replace (16 + len - 16)%nat with len by lia.
    cbn [app]. rewrite skipn_skipn. f_equal. lia.
  - destruct (Nat.leb_spec (16 + len) (length buf)); [lia | reflexivity].
Qed.

(** X3: a well-formed header stored anywhere in a buffer is read back
    unchanged from the offset where it starts, on either byte order,
    whatever the bytes before and after it. *)
Theorem header_roundtrip_at_any_offset (bo : byte_order) (h : wh16_t)
  (pre post : list byte) :
  wf_wh16 h ->
  wh16_at bo (pre ++ bytes_of_wh16 bo h ++ post) (length pre) = Some h
  /\ length (pre ++ bytes_of_wh16 bo h ++ post)
     = (length pre + 16 + length post)%nat.
Proof.
  intros Hwf. split.
  - now apply wh16_at_bytes.
  - rewrite !length_app, length_bytes_of_wh16. lia.
Qed.

Lemma header_roundtrip_at_any_offset_witness :
  wf_wh16 (WH M_QUERY K_STATE ANN_RO CAP_FULL RID_TEMP_MAX 0)
  /\ (wh16_at BigEndian
        ([Byte.xff; Byte.x00; Byte.x7f]
         ++ bytes_of_wh16 BigEndian
              (WH M_QUERY K_STATE ANN_RO CAP_FULL RID_TEMP_MAX 0)
         ++ [Byte.x01])
        (length [Byte.xff; Byte.x00; Byte.x7f])
      = Some (WH M_QUERY K_STATE ANN_RO CAP_FULL RID_TEMP_MAX 0)
      /\ length ([Byte.xff; Byte.x00; Byte.x7f]
                 ++ bytes_of_wh16 BigEndian
                      (WH M_QUERY K_STATE ANN_RO CAP_FULL RID_TEMP_MAX 0)
                 ++ [Byte.x01])
         = (length [Byte.xff; Byte.x00; Byte.x7f] + 16 + length [Byte.x01])%nat).
Proof.
  assert (Hwf : wf_wh16 (WH M_QUERY K_STATE ANN_RO CAP_FULL RID_TEMP_MAX 0))
    by apply WH_wf.
  split.
  - exact Hwf.
  - apply (header_roundtrip_at_any_offset BigEndian
             (WH M_QUERY K_STATE ANN_RO CAP_FULL RID_TEMP_MAX 0)
             [Byte.xff; Byte.x00; Byte.x7f] [Byte.x01] Hwf).
Defined.

(** X4: a message of any number of pairs. For a well-formed header and
    well-formed pairs, a buffer of exactly 16 bytes plus 8 bytes per pair,
    whatever it held, gives after assembly the header and every pair back:
    the header at the start, the pairs as an array after it, and pair [i]
    at index [i], in the order of the array. Indices from the number of
    pairs on are outside the buffer. *)
Theorem message_roundtrip_any_length (bo : byte_order) (buf : list byte)
  (header : wh16_t) (kvs : list kv32_t) :
  wf_wh16 header -> Forall wf_kv32 kvs ->
  length buf = (16 + 8 * length kvs)%nat ->
  exists msg : list byte,
    assemble bo buf header kvs (Z.of_nat (8 * length kvs)) = Some msg
    /\ msg = bytes_of_wh16 bo header ++ bytes_of_kv32_array bo kvs
    /\ read_header bo msg = Some header
    /\ kv32_array_at bo msg 16 (length kvs) = Some kvs
    /\ (forall i : nat, (i < length kvs)%nat ->
          read_kvs bo msg i = nth_error kvs i)
    /\ (forall i : nat, (length kvs <= i)%nat -> read_kvs bo msg i = None).
Proof.
  intros Hh Hkvs Hlen.
  destruct (message_roundtrip bo buf header kvs Hh Hkvs Hlen)
    as (msg & Hmsg & Hlength & Hheader & Harray & Hindex).
  exists msg. split_members; try assumption.
  - rewrite assemble_bytes in Hmsg by assumption. congruence.
  - intros i Hi.
    destruct (nth_error kvs i) as [p |] eqn:Hnth.
    + now apply Hindex.
    + apply nth_error_None in Hnth. lia.
  - intros i Hi.
    destruct (read_kvs bo msg i) eqn:Hread; [| reflexivity].
    assert (Hdef : read_kvs bo msg i <> None) by congruence.
    apply read_kvs_defined in Hdef. lia.
Qed.

Lemma message_roundtrip_any_length_witness :
  let header := WH M_UPSERT K_CONFIG ANN_RW CAP_EXTENDED RID_SYSTEM_MIN 16 in
  let kvs := [KV 7 0xFFFFFFFF; KV 0 1] in
  let buf := repeat Byte.xff 32 in
  (wf_wh16 header /\ Forall wf_kv32 kvs
   /\ length buf = (16 + 8 * length kvs)%nat)
  /\ exists msg : list byte,
       assemble BigEndian buf header kvs (Z.of_nat (8 * length kvs)) = Some msg
       /\ msg = bytes_of_wh16 BigEndian header ++ bytes_of_kv32_array BigEndian kvs
       /\ read_header BigEndian msg = Some header
       /\ kv32_array_at BigEndian msg 16 (length kvs) = Some kvs
       /\ (forall i : nat, (i < length kvs)%nat ->
             read_kvs BigEndian msg i = nth_error kvs i)
       /\ (forall i : nat, (length kvs <= i)%nat ->
             read_kvs BigEndian msg i = None).
Proof.
  intros header kvs buf.
  assert (Hh : wf_wh16 header) by apply WH_wf.
  assert (Hkvs : Forall wf_kv32 kvs) by (repeat constructor; apply KV_wf).
  assert (Hlen : length buf = (16 + 8 * length kvs)%nat) by reflexivity.
  split.
  - split_members; assumption.
  - apply (message_roundtrip_any_length BigEndian buf header kvs Hh Hkvs Hlen).
Defined.

(** ** Reading with the other byte order *)

Lemma le_combine_cons_add (b : byte) (bs : list byte) :
  le_combine (b :: bs) = byte.unsigned b + 2 ^ 8 * le_combine bs.
Proof.
  change (le_combine (b :: bs))
    with (Z.lor (byte.unsigned b) (Z.shiftl (le_combine bs) 8)).
  assert (Hdisjoint : Z.land (byte.unsigned b) (Z.shiftl (le_combine bs) 8) = 0).
  { apply Z.bits_inj'. intros j Hj.
    rewrite Z.land_spec, Z.bits_0.
    destruct (Z.ltb_spec j 8).
    - rewrite Z.shiftl_spec_low by assumption. apply andb_false_r.
    - rewrite <- (byte.wrap_unsigned b). unfold byte.wrap.
      now rewrite Z.mod_pow2_bits_high by lia. }
  rewrite <- Z.lxor_lor, <- Z.add_nocarry_lxor by exact Hdisjoint.
  now rewrite Z.shiftl_mul_pow2, Z.mul_comm by lia.
Qed.

(** The four bytes of [x], in reverse order. *)
Lemma byte_swapped32_bytes (x : Z) :
  byte_swapped32 x
  = x / 2 ^ 24 mod 2 ^ 8
    + 2 ^ 8 * (x / 2 ^ 16 mod 2 ^ 8)
    + 2 ^ 16 * (x / 2 ^ 8 mod 2 ^ 8)
    + 2 ^ 24 * (x mod 2 ^ 8).
Proof.
  unfold byte_swapped32, load_uint, store_uint.
  change (le_split 4 x)
    with [byte.of_Z x; byte.of_Z (Z.shiftr x 8);
          byte.of_Z (Z.shiftr (Z.shiftr x 8) 8);
          byte.of_Z (Z.shiftr (Z.shiftr (Z.shiftr x 8) 8) 8)].
  cbn [rev app].
  rewrite !le_combine_cons_add. change (le_combine []) with 0.
  rewrite !byte.unsigned_of_Z. unfold byte.wrap.
  rewrite !Z.shiftr_div_pow2 by lia.
  rewrite !Z.div_div by lia.
  change (2 ^ 8 * (2 ^ 8 * 2 ^ 8)) with (2 ^ 24).
  change (2 ^ 8 * 2 ^ 8) with (2 ^ 16).
  ring.
Qed.

Lemma byte_swapped32_involutive (x : Z) :
  byte_swapped32 (byte_swapped32 x) = to_uint32 x.
Proof.
  unfold byte_swapped32, load_uint, store_uint.
  assert (Hlen : length (rev (le_split 4 x)) = 4%nat)
    by (now rewrite length_rev, length_le_split).
  rewrite <- Hlen at 1.
  rewrite split_le_combine, rev_involutive.
  apply le_combine_split.
Qed.

Lemma load_store_other_order (bo bo' : byte_order) (x : Z) :
  load_uint bo' (store_uint bo 1 x) = to_uint8 x
  /\ load_uint bo' (store_uint bo 4 x)
     = if same_byte_order bo bo' then to_uint32 x else byte_swapped32 x.
Proof.
  split.
  - destruct bo, bo'; apply (le_combine_split 1).
  - destruct bo, bo'; cbn [same_byte_order load_uint store_uint];
      rewrite ?rev_involutive; try reflexivity; apply (le_combine_split 4).
Qed.

Lemma uint_at_skip_stored (bo' bo : byte_order) (m : nat) (x : Z)
  (l : list byte) (off size : nat) :
  uint_at bo' (store_uint bo m x ++ l) (m + off) size = uint_at bo' l off size.
Proof.
  rewrite <- (length_store_uint bo m x) at 2. apply uint_at_skip.
Qed.

Lemma uint_at_stored (bo' bo : byte_order) (m : nat) (x : Z) (l : list byte) :
  uint_at bo' (store_uint bo m x ++ l) 0 m
  = Some (load_uint bo' (store_uint bo m x)).
Proof.
  unfold uint_at.
  rewrite <- (length_store_uint bo m x) at 2.
  now rewrite read_bytes_here.
Qed.

(** Moves a read past the members stored in front of it, whatever the byte
    order they were stored with. *)
Ltac skip_stored_members :=
  repeat match goal with
  | |- context [uint_at ?bo' (store_uint ?bo ?m ?x ++ ?l) ?off ?size] =>
      lazymatch eval compute in (m <=? off)%nat with
      | true =>
          let off' := eval compute in (off - m)%nat in
          change (uint_at bo' (store_uint bo m x ++ l) off size)
            with (uint_at bo' (store_uint bo m x ++ l) (m + off') size);
          rewrite (uint_at_skip_stored bo' bo m x l off' size)
      end
  end.

(** X5: a header stored by a machine of byte order [bo] and read by a
    machine of byte order [bo']. The one-byte members [mt], [kc], [ann] and
    [ver] are read as they were stored, whatever the two byte orders. The
    four-byte members [cap], [rid] and [n] are read as stored when the byte
    orders are the same, and with their four bytes in reverse order when
    they differ. Reversing the bytes twice gives the value back. *)
Theorem header_read_with_other_byte_order (bo bo' : byte_order) (h : wh16_t)
  (pre post : list byte) :
  wf_wh16 h ->
  let swap x := if same_byte_order bo bo' then x else byte_swapped32 x in
  exists h' : wh16_t,
    wh16_at bo' (pre ++ bytes_of_wh16 bo h ++ post) (length pre) = Some h'
    /\ mt h' = mt h /\ kc h' = kc h /\ ann h' = ann h /\ ver h' = ver h
    /\ cap h' = swap (cap h) /\ rid h' = swap (rid h) /\ n h' = swap (n h)
    /\ byte_swapped32 (n h)
       = n h / 2 ^ 24 mod 2 ^ 8
         + 2 ^ 8 * (n h / 2 ^ 16 mod 2 ^ 8)
         + 2 ^ 16 * (n h / 2 ^ 8 mod 2 ^ 8)
         + 2 ^ 24 * (n h mod 2 ^ 8)
    /\ byte_swapped32 (byte_swapped32 (n h)) = n h.
Proof.
  intros (Hmt & Hkc & Hann & Hver & Hcap & Hrid & Hn) swap.
  unfold wh16_at, bytes_of_wh16.
  repeat rewrite <- app_assoc.
  rewrite uint_at_skip_0. repeat rewrite uint_at_skip.
  skip_stored_members.
  repeat rewrite uint_at_stored. cbn [bind].
  eexists. split; [reflexivity |]. cbn [mt kc ann ver cap rid n].
  rewrite !(proj1 (load_store_other_order bo bo' _)).
  rewrite !(proj2 (load_store_other_order bo bo' _)).
  rewrite !to_uint8_id by assumption.
  split_members; try reflexivity.
  - subst swap. cbv beta. now rewrite to_uint32_id.
  - subst swap. cbv beta. now rewrite to_uint32_id.
  - subst swap. cbv beta. now rewrite to_uint32_id.
  - apply byte_swapped32_bytes.
  - rewrite byte_swapped32_involutive. now apply to_uint32_id.
Qed.

Lemma header_read_with_other_byte_order_witness :
  let h := WH M_UPSERT K_MCP ANN_MCP CAP_STANDARD RID_USER_MIN 24 in
  let swap x := if same_byte_order LittleEndian BigEndian
                then x else byte_swapped32 x in
  wf_wh16 h
  /\ exists h' : wh16_t,
       wh16_at BigEndian ([] ++ bytes_of_wh16 LittleEndian h ++ []) (length (@nil byte))
       = Some h'
       /\ mt h' = mt h /\ kc h' = kc h /\ ann h' = ann h /\ ver h' = ver h
       /\ cap h' = swap (cap h) /\ rid h' = swap (rid h) /\ n h' = swap (n h)
       /\ byte_swapped32 (n h)
          = n h / 2 ^ 24 mod 2 ^ 8
            + 2 ^ 8 * (n h / 2 ^ 16 mod 2 ^ 8)
            + 2 ^ 16 * (n h / 2 ^ 8 mod 2 ^ 8)
            + 2 ^ 24 * (n h mod 2 ^ 8)
       /\ byte_swapped32 (byte_swapped32 (n h)) = n h.
Proof.
  intros h swap.
  assert (Hwf : wf_wh16 h) by apply WH_wf.
  split.
  - exact Hwf.
  - apply (header_read_with_other_byte_order LittleEndian BigEndian h [] [] Hwf).
Defined.

(** ** Permission predicates *)

(** X6: [HAS_READ], [HAS_WRITE] and [HAS_DELETE] test bits 0, 1 and 2 of the
    annotation and nothing else. So the union of two annotations has a
    permission exactly when one of them has it, their intersection exactly
    when both have it, and the annotation that [WH] stores has the
    permissions of the argument, even of one that does not fit 8 bits. *)
Theorem permission_predicates_are_bit_tests (a b m c p r len : Z) :
  (HAS_READ a = Z.testbit a 0
   /\ HAS_WRITE a = Z.testbit a 1
   /\ HAS_DELETE a = Z.testbit a 2)
  /\ (HAS_READ (Z.lor a b) = HAS_READ a || HAS_READ b
      /\ HAS_WRITE (Z.lor a b) = HAS_WRITE a || HAS_WRITE b
      /\ HAS_DELETE (Z.lor a b) = HAS_DELETE a || HAS_DELETE b)
  /\ (HAS_READ (Z.land a b) = HAS_READ a && HAS_READ b
      /\ HAS_WRITE (Z.land a b) = HAS_WRITE a && HAS_WRITE b
      /\ HAS_DELETE (Z.land a b) = HAS_DELETE a && HAS_DELETE b)
  /\ (HAS_READ (ann (WH m c a p r len)) = HAS_READ a
      /\ HAS_WRITE (ann (WH m c a p r len)) = HAS_WRITE a
      /\ HAS_DELETE (ann (WH m c a p r len)) = HAS_DELETE a).
Proof.
  cbn [WH ann]. unfold to_uint8.
  rewrite !HAS_READ_testbit, !HAS_WRITE_testbit, !HAS_DELETE_testbit.
  rewrite !Z.lor_spec, !Z.land_spec.
  rewrite !to_unsigned_testbit by lia.
  split_members; try reflexivity; apply andb_true_r.
Qed.

(** X7: the eight annotation bits are eight different single bits that fill
    the 8 bits of the member. Whatever the argument, the annotation that
    [WH] stores is the union of the annotation bits that the argument
    holds. *)
Theorem annotation_is_union_of_its_flags (a m c p r len : Z) :
  NoDup annotation_flags
  /\ map Z.log2 annotation_flags = [0; 1; 2; 3; 4; 5; 6; 7]
  /\ Forall (fun f => f = 2 ^ Z.log2 f) annotation_flags
  /\ flags_union annotation_flags = UINT8_MAX
  /\ flags_union (flags_held annotation_flags a) = a mod 2 ^ 8
  /\ ann (WH m c a p r len) = flags_union (flags_held annotation_flags a)
  /\ flags_held annotation_flags (ann (WH m c a p r len))
     = flags_held annotation_flags a.
Proof.
  assert (Hunion : flags_union (flags_held annotation_flags a) = a mod 2 ^ 8).
  { rewrite flags_held_union by apply annotation_flags_single_bit.
    change (flags_union annotation_flags) with (Z.ones 8).
    apply Z.land_ones. lia. }
  split_members; try reflexivity; try assumption.
  - unfold annotation_flags.
    repeat (constructor; [simpl In; intuition discriminate |]). constructor.
  - unfold annotation_flags. repeat constructor.
  - now rewrite Hunion.
  - cbn [WH ann]. unfold flags_held. apply filter_ext_in.
    intros f Hf.
    pose proof annotation_flags_single_bit as Hbits.
    rewrite Forall_forall in Hbits.
    destruct (Hbits f Hf) as (i & Hi & ->).
    rewrite !has_flag_pow2 by assumption.
    unfold to_uint8. rewrite to_unsigned_testbit by lia.
    destruct (Z.ltb_spec i 8) as [Hlt | Hge]; [apply andb_true_r |].
    exfalso. unfold annotation_flags in Hf. simpl In in Hf.
    assert (Hle : 2 ^ 8 <= 2 ^ i) by (apply Z.pow_le_mono_r; lia).
    unfold T_R, T_W, T_D, T_X, T_SYNC, T_COMPRESS, T_ENCRYPT, T_ARCHIVE in Hf.
    lia.
Qed.

(** ** Capability masks *)

(** X8: [CAP_FULL] contains every 32-bit capability bitmap: its
    intersection with a bitmap is the bitmap as [WH] stores it. The named
    patterns are nested, [CAP_STANDARD] within [CAP_EXTENDED] within
    [CAP_FULL], and hold exactly the flags their names tell. The
    capability flags a bitmap holds make up its eight high bits, and none
    of them is lost when [WH] converts the bitmap to 32 bits. *)
Theorem capability_masks (c m kcl a r len : Z) :
  Z.land CAP_FULL c = cap (WH m kcl a c r len)
  /\ Z.land CAP_FULL (cap (WH m kcl a c r len)) = cap (WH m kcl a c r len)
  /\ Z.land CAP_STANDARD CAP_EXTENDED = CAP_STANDARD
  /\ Z.land CAP_EXTENDED CAP_FULL = CAP_EXTENDED
  /\ flags_held capability_flags CAP_STANDARD = [P_TOOLS; P_APPS]
  /\ flags_held capability_flags CAP_EXTENDED = [P_TOOLS; P_APPS; P_FILES]
  /\ flags_held capability_flags CAP_FULL = capability_flags
  /\ flags_union (flags_held capability_flags c) = Z.land c 0xFF000000
  /\ flags_held capability_flags (cap (WH m kcl a c r len))
     = flags_held capability_flags c.
Proof.
  assert (Hfull : forall x, Z.land CAP_FULL x = to_uint32 x).
  { intros x. rewrite Z.land_comm. change CAP_FULL with (Z.ones 32).
    apply Z.land_ones. lia. }
  cbn [WH cap].
  split_members; try reflexivity.
  - apply Hfull.
  - rewrite Hfull. apply to_unsigned_idem. lia.
  - now rewrite flags_held_union by apply capability_flags_single_bit.
  - unfold flags_held. apply filter_ext_in.
    intros f Hf.
    pose proof capability_flags_single_bit as Hbits.
    rewrite Forall_forall in Hbits.
    destruct (Hbits f Hf) as (i & Hi & ->).
    rewrite !has_flag_pow2 by assumption.
    unfold to_uint32. rewrite to_unsigned_testbit by lia.
    destruct (Z.ltb_spec i 32) as [Hlt | Hge]; [apply andb_true_r |].
    exfalso. unfold capability_flags in Hf. simpl In in Hf.
    assert (Hle : 2 ^ 32 <= 2 ^ i) by (apply Z.pow_le_mono_r; lia).
    unfold P_TOOLS, P_APPS, P_FILES, P_NETWORK, P_DATABASE, P_COMPUTE,
      P_MEMORY, P_ADMIN in Hf.
    lia.
Qed.

(** ** Classes of record IDs *)

(** X9: every record ID lies in exactly one of the four ranges when it is
    valid and in none when it is not; system and user IDs are valid; and a
    32-bit record ID is not valid exactly when it is 0 or at least
    0x30000000. *)
Theorem rid_in_one_range_iff_valid (r : Z) :
  length (filter (fun range => range r) rid_ranges)
  = (if RID_IS_VALID r then 1 else 0)%nat
  /\ implb (RID_IS_SYSTEM r) (RID_IS_VALID r) = true
  /\ implb (RID_IS_USER r) (RID_IS_VALID r) = true
  /\ negb (RID_IS_VALID (to_uint32 r))
     = (to_uint32 r =? 0) || (0x30000000 <=? to_uint32 r).
Proof.
  assert (Hcase : forall b : bool, b = true \/ b = false)
    by (intros []; auto).
  split_members.
  - unfold rid_ranges. cbn [filter].
    destruct (Hcase (RID_IS_VALID r)) as [Hv | Hv];
    destruct (Hcase (RID_IS_SYSTEM r)) as [Hs | Hs];
    destruct (Hcase (RID_IS_USER r)) as [Hu | Hu];
    destruct (Hcase (rid_in_snapshot_range r)) as [Hn | Hn];
    destruct (Hcase (rid_in_temp_range r)) as [Ht | Ht];
    rewrite Hv, Hs, Hu, Hn, Ht; try reflexivity; exfalso;
    rewrite <- ?not_true_iff_false in *;
    rid_bounds; lia.
  - destruct (Hcase (RID_IS_VALID r)) as [Hv | Hv];
    destruct (Hcase (RID_IS_SYSTEM r)) as [Hs | Hs];
    rewrite Hv, Hs; try reflexivity; exfalso;
    rewrite <- ?not_true_iff_false in *; rid_bounds; lia.
  - destruct (Hcase (RID_IS_VALID r)) as [Hv | Hv];
    destruct (Hcase (RID_IS_USER r)) as [Hu | Hu];
    rewrite Hv, Hu; try reflexivity; exfalso;
    rewrite <- ?not_true_iff_false in *; rid_bounds; lia.
  - pose proof (to_uint32_range r) as Hr. unfold is_uint32, UINT32_MAX in Hr.
    destruct (Hcase (RID_IS_VALID (to_uint32 r))) as [Hv | Hv]; rewrite Hv;
      cbn [negb]; symmetry.
    + apply orb_false_iff. rewrite Z.eqb_neq, Z.leb_gt. rid_bounds. lia.
    + apply orb_true_iff. rewrite Z.eqb_eq, Z.leb_le.
      rewrite <- not_true_iff_false in Hv. rid_bounds. lia.
Qed.

(** ** Budget *)

(** X10: the remaining credits of a budget built by [BUD], whatever its
    members. When the used credits do not exceed the capacity the result is
    their difference; when they do, the subtraction wraps around and the
    result is the difference plus 2^32. The result exceeds the capacity
    exactly in the second case, which lets a caller detect it. *)
Theorem BUD_remaining_wraps (m c u : Z) :
  let b := BUD m c u in
  remaining b
  = (if used_credits b <=? cap_credits b
     then cap_credits b - used_credits b
     else cap_credits b - used_credits b + 2 ^ 32)
  /\ (remaining b <=? cap_credits b) = (used_credits b <=? cap_credits b)
  /\ remaining (BUD m 0 1) = UINT32_MAX.
Proof.
  intros b.
  destruct (BUD_wf m c u) as (_ & Hcap & Hused). fold b in Hcap, Hused.
  unfold is_uint32, UINT32_MAX in *.
  assert (Hrem : remaining b
                 = if used_credits b <=? cap_credits b
                   then cap_credits b - used_credits b
                   else cap_credits b - used_credits b + 2 ^ 32).
  { unfold remaining, to_uint32, to_unsigned.
    destruct (Z.leb_spec (used_credits b) (cap_credits b)).
    - apply Z.mod_small. lia.
    - symmetry. apply (Z.mod_unique _ _ (-1)); lia. }
  split_members.
  - exact Hrem.
  - rewrite Hrem.
    destruct (Z.leb_spec (used_credits b) (cap_credits b));
      [apply Z.leb_le | apply Z.leb_gt]; lia.
  - reflexivity.
Qed.

(** ** Pairs and budgets *)

(** X11: [KV] and [BUD] always give well-formed values: each member is the
    argument reduced modulo 2^32, and building the value again from its own
    members changes nothing. A pair has 8 bytes and a budget 12, the sizes
    of the structures, on either byte order, and a pair stored anywhere in
    a buffer is read back unchanged. *)
Theorem KV_BUD_construction (bo : byte_order) (pre post : list byte)
  (key val m c u : Z) :
  let p := KV key val in
  let b := BUD m c u in
  (k p = key mod 2 ^ 32 /\ v p = val mod 2 ^ 32)
  /\ (mode b = m mod 2 ^ 32 /\ cap_credits b = c mod 2 ^ 32
      /\ used_credits b = u mod 2 ^ 32)
  /\ wf_kv32 p /\ wf_bud b
  /\ KV (k p) (v p) = p
  /\ BUD (mode b) (cap_credits b) (used_credits b) = b
  /\ Z.of_nat (length (bytes_of_kv32 bo p)) = sizeof_kv32_t
  /\ Z.of_nat (length (bytes_of_bud bo b)) = sizeof_bud_t
  /\ sizeof_bud_t = 12
  /\ kv32_at bo (pre ++ bytes_of_kv32 bo p ++ post) (length pre) = Some p.
Proof.
  intros p b.
  split_members; try reflexivity.
  - apply KV_wf.
  - apply BUD_wf.
  - apply KV_eta, KV_wf.
  - subst b. unfold BUD. cbn [mode cap_credits used_credits].
    unfold to_uint32. now rewrite !to_unsigned_idem by lia.
  - now rewrite length_bytes_of_kv32.
  - now rewrite length_bytes_of_bud.
  - apply kv32_at_bytes, KV_wf.
Qed.

(** ** Payload size *)

(** X12: the payload size of [count] pairs through [BYTES_KV], the member
    [n] of the header and [MSG_SIZE]. For fewer than 2^29 pairs whose
    message fits [size_t], the header stores [8 * count] in [n], dividing
    [n] by the size of a pair gives [count] back with no remainder, and the
    message has [16 + 8 * count] bytes. At 2^29 pairs the 32 bits of [n] are
    exceeded and [n] is 0, even with a [size_t] of 64 bits. *)
Theorem payload_size_in_header (size_bits count m c a p r : Z) :
  0 <= count < 2 ^ 29 ->
  16 + 8 * count < 2 ^ size_bits ->
  let h := WH m c a p r (BYTES_KV size_bits count) in
  n h = 8 * count
  /\ n h / sizeof_kv32_t = count
  /\ n h mod sizeof_kv32_t = 0
  /\ MSG_SIZE size_bits (n h) = sizeof_wh16_t + n h
  /\ n (WH m c a p r (BYTES_KV 64 (2 ^ 29))) = 0.
Proof.
  intros Hcount Hfits h.
  assert (Hn : n h = 8 * count).
  { subst h. cbn [WH n]. rewrite BYTES_KV_mod.
    rewrite Z.mod_small by lia. rewrite Z.mul_comm. apply to_uint32_id.
    unfold is_uint32, UINT32_MAX. lia. }
  rewrite Hn. change sizeof_kv32_t with 8. change sizeof_wh16_t with 16.
  split_members.
  - reflexivity.
  - rewrite Z.mul_comm. apply Z.div_mul. lia.
  - rewrite Z.mul_comm. apply Z.mod_mul. lia.
  - rewrite MSG_SIZE_mod. apply Z.mod_small. lia.
  - reflexivity.
Qed.

Lemma payload_size_in_header_witness :
  (0 <= 2 ^ 29 - 1 < 2 ^ 29 /\ 16 + 8 * (2 ^ 29 - 1) < 2 ^ 64)
  /\ (let h := WH M_UPSERT K_MCP ANN_MCP CAP_STANDARD RID_USER_MIN
                  (BYTES_KV 64 (2 ^ 29 - 1)) in
      n h = 8 * (2 ^ 29 - 1)
      /\ n h / sizeof_kv32_t = 2 ^ 29 - 1
      /\ n h mod sizeof_kv32_t = 0
      /\ MSG_SIZE 64 (n h) = sizeof_wh16_t + n h
      /\ n (WH M_UPSERT K_MCP ANN_MCP CAP_STANDARD RID_USER_MIN
               (BYTES_KV 64 (2 ^ 29))) = 0).
Proof.
  split.
  - lia.
  - apply (payload_size_in_header 64 (2 ^ 29 - 1)
             M_UPSERT K_MCP ANN_MCP CAP_STANDARD RID_USER_MIN); lia.
Defined.

(** ** The test suite *)

Lemma run_assertions_pass (assertions : list bool) (s : test_state) :
  forallb (fun a => a) assertions = true ->
  run_assertions assertions s = (TEST_PASS (TEST_START s), 1).
Proof. intros Hall. unfold run_assertions. now rewrite Hall. Qed.

Lemma test_wh16_passes (s : test_state) :
  test_wh16 s = (TEST_PASS (TEST_START s), 1).
Proof. now apply run_assertions_pass. Qed.

Lemma test_kv32_passes (size_bits : Z) (s : test_state) :
  16 <= size_bits -> test_kv32 size_bits s = (TEST_PASS (TEST_START s), 1).
Proof.
  intros Hbits. apply run_assertions_pass.
  assert (Hmax : 2 ^ 16 <= 2 ^ size_bits) by (apply Z.pow_le_mono_r; lia).
  rewrite BYTES_KV_mod, Z.mod_small by lia. reflexivity.
Qed.

Lemma test_bud_passes (s : test_state) :
  test_bud s = (TEST_PASS (TEST_START s), 1).
Proof. now apply run_assertions_pass. Qed.

Lemma test_annotation_bits_passes (s : test_state) :
  test_annotation_bits s = (TEST_PASS (TEST_START s), 1).
Proof. now apply run_assertions_pass. Qed.

Lemma test_id_ranges_passes (s : test_state) :
  test_id_ranges s = (TEST_PASS (TEST_START s), 1).
Proof. now apply run_assertions_pass. Qed.

Lemma test_message_types_passes (s : test_state) :
  test_message_types s = (TEST_PASS (TEST_START s), 1).
Proof. now apply run_assertions_pass. Qed.

Lemma test_capabilities_passes (s : test_state) :
  test_capabilities s = (TEST_PASS (TEST_START s), 1).
Proof. now apply run_assertions_pass. Qed.

(** The sizes [test_full_message] computes, on every platform. *)
Lemma test_full_message_sizes (size_bits : Z) :
  16 <= size_bits ->
  to_uint32 (BYTES_KV size_bits 3) = 24
  /\ to_uint32 (MSG_SIZE size_bits 24) = 40.
Proof.
  intros Hbits.
  assert (Hmax : 2 ^ 16 <= 2 ^ size_bits) by (apply Z.pow_le_mono_r; lia).
  rewrite BYTES_KV_mod, MSG_SIZE_mod, !Z.mod_small by lia.
  split; reflexivity.
Qed.

Lemma test_full_message_passes (bo : byte_order) (size_bits : Z)
  (malloc : Z -> option (list byte)) (buf : list byte) (s : test_state) :
  16 <= size_bits -> malloc 40 = Some buf -> length buf = 40%nat ->
  test_full_message bo size_bits malloc s = Some (TEST_PASS (TEST_START s), 1).
Proof.
  intros Hbits Hmalloc Hlen.
  destruct (test_full_message_sizes size_bits Hbits) as [Hpayload Htotal].
  unfold test_full_message.
  rewrite Hpayload, Htotal. cbn [assert_or_return ASSERT_EQ Z.eqb Z.add Pos.add Pos.eqb Pos.succ].
  change (16 + 24) with 40. change (40 =? 40) with true. cbv iota.
  rewrite Hmalloc.
  rewrite (assemble_bytes bo buf _ [KV 0x1001 0x2002; KV 0x3003 0x4004; KV 0x5005 0x6006])
    by exact Hlen.
  cbn [bind].
  unfold bytes_of_wh16, bytes_of_kv32_array. cbn [flat_map].
  unfold bytes_of_kv32.
  repeat rewrite <- app_assoc.
  skip_stored_members.
  repeat rewrite uint_at_member. cbn [bind].
  destruct s as [run passed live].
  unfold TEST_PASS, TEST_START, block_freed, block_allocated.
  cbn [tests_run tests_passed live_blocks].
  replace (live + 1 - 1) with live by lia.
  reflexivity.
Qed.

Lemma test_full_message_without_memory (bo : byte_order) (size_bits : Z)
  (malloc : Z -> option (list byte)) (s : test_state) :
  16 <= size_bits -> malloc 40 = None ->
  test_full_message bo size_bits malloc s = Some (TEST_START s, 0).
Proof.
  intros Hbits Hmalloc.
  destruct (test_full_message_sizes size_bits Hbits) as [Hpayload Htotal].
  unfold test_full_message.
  rewrite Hpayload, Htotal.
  change (ASSERT_EQ 40 (16 + 24)) with true. cbn [assert_or_return].
  now rewrite Hmalloc.
Qed.

(** X13: the test suite on every platform. Whatever the byte order, the
    width of [size_t] (at least 16 bits) and the contents of the block of
    40 bytes that [malloc] gives, the eight tests are run and pass, the
    block is freed, and [main] returns 0. *)
Theorem main_passes (bo : byte_order) (size_bits : Z)
  (malloc : Z -> option (list byte)) (buf : list byte) :
  16 <= size_bits -> malloc 40 = Some buf -> length buf = 40%nat ->
  main bo size_bits malloc = Some (Build_test_state 8 8 0, 0)
  /\ (forall s : test_state,
        test_full_message bo size_bits malloc s
        = Some (TEST_PASS (TEST_START s), 1)).
Proof.
  intros Hbits Hmalloc Hlen. split.
  - unfold main.
    rewrite test_wh16_passes, (test_kv32_passes size_bits) by assumption.
    cbn [fst]. rewrite test_bud_passes. cbn [fst].
    rewrite (test_full_message_passes bo size_bits malloc buf) by assumption.
    cbn [bind fst].
    rewrite test_annotation_bits_passes. cbn [fst].
    rewrite test_id_ranges_passes. cbn [fst].
    rewrite test_message_types_passes. cbn [fst].
    rewrite test_capabilities_passes. cbn [fst].
    reflexivity.
  - intros s. now apply (test_full_message_passes bo size_bits malloc buf).
Qed.

Lemma main_passes_witness :
  let malloc := fun size : Z => Some (repeat Byte.xff (Z.to_nat size)) in
  (16 <= 32 /\ malloc 40 = Some (repeat Byte.xff 40)
   /\ length (repeat Byte.xff 40) = 40%nat)
  /\ (main BigEndian 32 malloc = Some (Build_test_state 8 8 0, 0)
      /\ (forall s : test_state,
            test_full_message BigEndian 32 malloc s
            = Some (TEST_PASS (TEST_START s), 1))).
Proof.
  intros malloc. split.
  - split; [lia | split; reflexivity].
  - apply (main_passes BigEndian 32 malloc (repeat Byte.xff 40));
      [lia | reflexivity | reflexivity].
Defined.

(** X14: the test suite when [malloc] gives no memory. The message test
    returns 0 before any copy; it is counted as run and not as passed. The
    seven other tests pass, nothing is left allocated, and [main] returns
    1. *)
Theorem main_fails_without_memory (bo : byte_order) (size_bits : Z)
  (malloc : Z -> option (list byte)) :
  16 <= size_bits -> malloc 40 = None ->
  main bo size_bits malloc = Some (Build_test_state 8 7 0, 1)
  /\ (forall s : test_state,
        test_full_message bo size_bits malloc s = Some (TEST_START s, 0)).
Proof.
  intros Hbits Hmalloc. split.
  - unfold main.
    rewrite test_wh16_passes, (test_kv32_passes size_bits) by assumption.
    cbn [fst]. rewrite test_bud_passes. cbn [fst].
    rewrite (test_full_message_without_memory bo size_bits malloc) by assumption.
    cbn [bind fst].
    rewrite test_annotation_bits_passes. cbn [fst].
    rewrite test_id_ranges_passes. cbn [fst].
    rewrite test_message_types_passes. cbn [fst].
    rewrite test_capabilities_passes. cbn [fst].
    reflexivity.
  - intros s. now apply test_full_message_without_memory.
Qed.

Lemma main_fails_without_memory_witness :
  let malloc := fun _ : Z => @None (list byte) in
  (16 <= 64 /\ malloc 40 = None)
  /\ (main LittleEndian 64 malloc = Some (Build_test_state 8 7 0, 1)
      /\ (forall s : test_state,
            test_full_message LittleEndian 64 malloc s = Some (TEST_START s, 0))).
Proof.
  intros malloc. split.
  - split; [lia | reflexivity].
  - apply (main_fails_without_memory LittleEndian 64 malloc);
      [lia | reflexivity].
Defined.
